(** * formio-mcp: the real-time notification core, the RPC bridge and the
      ownership-gated tools, embedded from the TypeScript sources.

    - [SSEManager]            transport/sse-manager.ts
    - [FormUpdateNotifier]    services/form-update-notifier.ts
    - [HttpTransport]         transport/http-transport.ts
    - [executeToolCall]       tool handlers (create / update / delete form)
    - [previewUpdatesRoute]   routes/preview-updates.ts
    - [createAuthMiddleware]  middleware/auth.ts
    - [postDirect]            server/http-server.ts (POST basePath)
    - [escapeHtml]            templates/form-preview.ts

    JavaScript [Map]s are finite maps ([gmap]); a JavaScript [Set] of
    connection ids is the list of its elements in insertion order, which is
    what [Array.from] returns.  [new Date()] is an explicit [now] argument. *)

From stdpp Require Import gmap strings list fin_maps sorting.
From Stdlib Require Import ZArith Lia.

Open Scope Z_scope.

(** ** JavaScript values used by the code *)

(** [if (s)] on a string: the empty string is the only falsy one. *)
Definition truthy_string (s : string) : bool := bool_decide (s ≠ "").

(** [Set.prototype.add]: no effect when present, appended otherwise. *)
Definition set_add (x : string) (s : list string) : list string :=
  if decide (x ∈ s) then s else s ++ [x].

(** [Set.prototype.delete]. *)
Definition set_delete (x : string) (s : list string) : list string :=
  filter (λ y, y ≠ x) s.

(** ** Streaming Connection Registry (SSEManager) *)

Inductive ChangeType := created | updated | deleted.

#[global] Instance ChangeType_eq_dec : EqDecision ChangeType.
Proof. solve_decision. Defined.

(** The frames written on a stream.  The text framing
    [event: <kind>\ndata: <json>\n\n] is kept symbolic: a frame is its event
    kind together with the fields of its JSON payload. *)
Inductive Frame :=
| ConnectionFrame (connectionId : string)
| FormUpdateFrame (formId : string) (timestamp : Z) (changeType : ChangeType)
| FormDeletedFrame (formId : string) (timestamp : Z).

#[global] Instance Frame_eq_dec : EqDecision Frame.
Proof. solve_decision. Defined.

(** What [res.write] does on the underlying stream: it returns [true], it
    returns [false] (data buffered, high-water mark exceeded), or it throws. *)
Inductive WriteBehaviour := WriteOk | WriteBufferFull | WriteThrows.

(** The express [Response] object of a connection: its write behaviour and
    the frames it accepted so far. *)
Record Response := mkResponse {
  writes : WriteBehaviour;
  written : list Frame
}.

Record SSEConnection := mkSSEConnection {
  id : string;
  res : Response;
  connectedAt : Z;
  lastHeartbeat : Z;
  clientInfo : option string
}.

Record SSEManager := mkSSEManager {
  connections : gmap string SSEConnection;
  heartbeatInterval : bool   (* the heartbeat timer is running *)
}.

Definition hasConnection (connectionId : string) (m : SSEManager) : bool :=
  bool_decide (is_Some (connections m !! connectionId)).

Definition getConnectionInfo (connectionId : string) (m : SSEManager)
  : option SSEConnection :=
  connections m !! connectionId.

(** The stream is ended (errors ignored) and the record deleted; the
    heartbeat stops when the registry becomes empty. *)
Definition removeConnection (connectionId : string) (m : SSEManager) : SSEManager :=
  let conns :=
    match connections m !! connectionId with
    | Some _ => delete connectionId (connections m)
    | None => connections m
    end in
  {| connections := conns;
     heartbeatInterval :=
       if decide (size conns = 0%nat) then false else heartbeatInterval m |}.

(** [conn.res.write(frame)]: the outcome ([Some written] or [None] for a
    throw) and the stream afterwards. *)
Definition res_write (fr : Frame) (r : Response) : option bool * Response :=
  match writes r with
  | WriteOk => (Some true, mkResponse (writes r) (written r ++ [fr]))
  | WriteBufferFull => (Some false, mkResponse (writes r) (written r ++ [fr]))
  | WriteThrows => (None, r)
  end.

Definition setRes (r : Response) (c : SSEConnection) : SSEConnection :=
  mkSSEConnection (id c) r (connectedAt c) (lastHeartbeat c) (clientInfo c).

(** The registry's own [sendEvent]: a thrown write removes the connection. *)
Definition sendEvent (connectionId : string) (fr : Frame) (m : SSEManager)
  : bool * SSEManager :=
  match connections m !! connectionId with
  | None => (false, m)
  | Some conn =>
    match res_write fr (res conn) with
    | (Some wr, res') =>
      (wr, mkSSEManager (<[connectionId := setRes res' conn]> (connections m))
             (heartbeatInterval m))
    | (None, _) => (false, removeConnection connectionId m)
    end
  end.

(** [addConnection]: store the record, emit the [connection] event, start
    the heartbeat when the registry is not empty. *)
Definition addConnection (connectionId : string) (r : Response)
    (info : option string) (now : Z) (m : SSEManager) : SSEManager :=
  let m1 :=
    mkSSEManager
      (<[connectionId := mkSSEConnection connectionId r now now info]> (connections m))
      (heartbeatInterval m) in
  let m2 := (sendEvent connectionId (ConnectionFrame connectionId) m1).2 in
  mkSSEManager (connections m2)
    (if heartbeatInterval m2 then true
     else bool_decide (0 < size (connections m2))%nat).

(** The environment: the stream of a connection starts behaving as [b]
    (a peer that went away, a full buffer). *)
Definition streamBecomes (connectionId : string) (b : WriteBehaviour)
    (m : SSEManager) : SSEManager :=
  mkSSEManager
    (alter (λ c, setRes (mkResponse b (written (res c))) c)
       connectionId (connections m))
    (heartbeatInterval m).

(** ** Form Update Router (FormUpdateNotifier): the watch indices *)

Record FormUpdateNotifier := mkNotifier {
  formWatchers : gmap string (list string);     (* formId -> Set<connectionId> *)
  connectionForms : gmap string string;         (* connectionId -> formId *)
  connectionActivity : gmap string Z;           (* connectionId -> last activity *)
  pendingNotifications : gmap string nat;       (* formId -> Timeout handle;
                                                   a handle is an object, always
                                                   truthy: the number is only
                                                   its identity *)
  debounceInterval : Z;
  idleTimeout : Z
}.

(** [new FormUpdateNotifier(sseManager, debounceInterval, idleTimeout)]. *)
Definition newNotifier (debounce idle : Z) : FormUpdateNotifier :=
  mkNotifier ∅ ∅ ∅ ∅ debounce idle.

Definition getConnectionsByForm (formId : string) (n : FormUpdateNotifier)
  : list string :=
  match formWatchers n !! formId with
  | Some watchers => watchers
  | None => []
  end.

Definition getFormByConnection (connectionId : string) (n : FormUpdateNotifier)
  : option string :=
  connectionForms n !! connectionId.

Definition unregisterPreviewConnection (connectionId : string)
    (n : FormUpdateNotifier) : FormUpdateNotifier :=
  match connectionForms n !! connectionId with
  | None => n
  | Some formId =>
    if truthy_string formId then
      let fw :=
        match formWatchers n !! formId with
        | Some watchers =>
          let watchers' := set_delete connectionId watchers in
          if decide (length watchers' = 0%nat)
          then delete formId (formWatchers n)
          else <[formId := watchers']> (formWatchers n)
        | None => formWatchers n
        end in
      mkNotifier fw
        (delete connectionId (connectionForms n))
        (delete connectionId (connectionActivity n))
        (pendingNotifications n) (debounceInterval n) (idleTimeout n)
    else n   (* [if (!formId) return] *)
  end.

(** The tail of [registerPreviewConnection], after the already-registered
    check: insert into both indices and stamp the activity. *)
Definition insertWatch (connectionId formId : string) (now : Z)
    (n : FormUpdateNotifier) : FormUpdateNotifier :=
  let fw0 :=
    match formWatchers n !! formId with
    | Some _ => formWatchers n
    | None => <[formId := []]> (formWatchers n)
    end in
  let fw1 := alter (set_add connectionId) formId fw0 in
  mkNotifier fw1
    (<[connectionId := formId]> (connectionForms n))
    (<[connectionId := now]> (connectionActivity n))
    (pendingNotifications n) (debounceInterval n) (idleTimeout n).

Definition registerPreviewConnection (connectionId formId : string) (now : Z)
    (n : FormUpdateNotifier) : FormUpdateNotifier :=
  match connectionForms n !! connectionId with
  | Some existingFormId =>
    if truthy_string existingFormId then
      if decide (existingFormId ≠ formId) then
        insertWatch connectionId formId now
          (unregisterPreviewConnection connectionId n)
      else
        mkNotifier (formWatchers n) (connectionForms n)
          (<[connectionId := now]> (connectionActivity n))
          (pendingNotifications n) (debounceInterval n) (idleTimeout n)
    else insertWatch connectionId formId now n
  | None => insertWatch connectionId formId now n
  end.

Definition updateActivity (connectionId : string) (now : Z)
    (n : FormUpdateNotifier) : FormUpdateNotifier :=
  match connectionActivity n !! connectionId with
  | Some _ =>
    mkNotifier (formWatchers n) (connectionForms n)
      (<[connectionId := now]> (connectionActivity n))
      (pendingNotifications n) (debounceInterval n) (idleTimeout n)
  | None => n
  end.

(** Sequences of calls on the indices. *)
Inductive RouterCall :=
| Register (connectionId formId : string) (now : Z)
| Unregister (connectionId : string).

Definition routerCall (c : RouterCall) (n : FormUpdateNotifier) : FormUpdateNotifier :=
  match c with
  | Register cid fid now => registerPreviewConnection cid fid now n
  | Unregister cid => unregisterPreviewConnection cid n
  end.

Definition routerCalls (cs : list RouterCall) (n : FormUpdateNotifier)
  : FormUpdateNotifier :=
  foldl (λ acc c, routerCall c acc) n cs.

(** The union of all forward-index sets. *)
Definition watchedConnections (n : FormUpdateNotifier) : gset string :=
  ⋃ ((λ p : string * list string, list_to_set p.2) <$> map_to_list (formWatchers n)).

(** The consistency of the two indices, as the data model words it. *)
Definition indicesConsistent (n : FormUpdateNotifier) : Prop :=
  (∀ c f, connectionForms n !! c = Some f ↔
            (c ∈ getConnectionsByForm f n ∧
             ∀ f', c ∈ getConnectionsByForm f' n → f' = f))
  ∧ watchedConnections n = dom (connectionForms n)
  ∧ (∀ f, formWatchers n !! f ≠ Some []).

Definition registersNonEmptyForm (c : RouterCall) : Prop :=
  match c with
  | Register _ fid _ => fid ≠ ""
  | Unregister _ => True
  end.

(** ** The event loop: timers, clock and the trace of dispatches *)

(** JSON data the code only inspects by shape.  Numbers are integers. *)
#[warnings="-register-all"] Inductive Json :=
| JNull
| JBool (b : bool)
| JNumber (n : Z)
| JString (s : string)
| JArray (items : list Json)
| JObject (fields : list (string * Json)).

(** The subset of [FormioForm] fields the code reads or writes; every field
    is optional at run time ([Partial<FormioForm>]). *)
Record FormioForm := mkForm {
  form_id : option string;
  title : option string;
  name : option string;
  path : option string;
  components : option Json;
  display : option string;
  type : option string
}.

(** A pending [setTimeout] callback created by [debounceNotification]: the
    closure captures [formId], [changeType] and [formData]. *)
Record Timer := mkTimer {
  due : Z;
  timerForm : string;
  timerChange : ChangeType;
  timerData : option FormioForm
}.

(** One invocation of [sendNotification]. *)
Record Dispatch := mkDispatch {
  dispatchedAt : Z;
  dispatchForm : string;
  dispatchChange : ChangeType;
  dispatchData : option FormioForm
}.

(** The process state: the clock, the runtime's active timers (by handle),
    the registry, the router, and a ghost trace recording every invocation
    of [sendNotification] in order. *)
Record World := mkWorld {
  clock : Z;
  timers : gmap nat Timer;
  nextTimer : nat;
  sseManager : SSEManager;
  notifier : FormUpdateNotifier;
  dispatches : list Dispatch
}.

Definition newWorld (debounce idle : Z) : World :=
  mkWorld 0 ∅ 0 (mkSSEManager ∅ false) (newNotifier debounce idle) [].

Definition withNotifier (n : FormUpdateNotifier) (w : World) : World :=
  mkWorld (clock w) (timers w) (nextTimer w) (sseManager w) n (dispatches w).

Definition withSSE (m : SSEManager) (w : World) : World :=
  mkWorld (clock w) (timers w) (nextTimer w) m (notifier w) (dispatches w).

Definition withPending (p : gmap string nat) (n : FormUpdateNotifier)
  : FormUpdateNotifier :=
  mkNotifier (formWatchers n) (connectionForms n) (connectionActivity n)
    p (debounceInterval n) (idleTimeout n).

(** [setTimeout(cb, delay)]: a fresh handle, due [delay] after now. *)
Definition setTimeout (formId : string) (changeType : ChangeType)
    (formData : option FormioForm) (delay : Z) (w : World) : nat * World :=
  (nextTimer w,
   mkWorld (clock w)
     (<[nextTimer w := mkTimer (clock w + delay) formId changeType formData]> (timers w))
     (S (nextTimer w)) (sseManager w) (notifier w) (dispatches w)).

Definition clearTimeout (h : nat) (w : World) : World :=
  mkWorld (clock w) (delete h (timers w)) (nextTimer w)
    (sseManager w) (notifier w) (dispatches w).

(** ** Form Update Router: dispatch *)

(** Shared body of [sendFormUpdateEvent] and [sendFormDeletedEvent]: look the
    connection up, write the frame inside try/catch, return [written]. *)
Definition sendFrame (connectionId : string) (fr : Frame) (m : SSEManager)
  : bool * SSEManager :=
  match getConnectionInfo connectionId m with
  | None => (false, m)
  | Some conn =>
    let '(r, res') := res_write fr (res conn) in
    (match r with Some wr => wr | None => false end,
     mkSSEManager (<[connectionId := setRes res' conn]> (connections m))
       (heartbeatInterval m))
  end.

Definition sendFormUpdateEvent (connectionId formId : string) (timestamp : Z)
    (changeType : ChangeType) (m : SSEManager) : bool * SSEManager :=
  sendFrame connectionId (FormUpdateFrame formId timestamp changeType) m.

Definition sendFormDeletedEvent (connectionId formId : string) (timestamp : Z)
    (m : SSEManager) : bool * SSEManager :=
  sendFrame connectionId (FormDeletedFrame formId timestamp) m.

(** The counters and lists the dispatch loop accumulates. *)
Record SendStats := mkStats {
  successCount : nat;
  failureCount : nat;
  failedConnections : list string;
  deadConnections : list string
}.

(** One iteration of [for (const connectionId of connectionIds)].  The
    [catch] arm of the loop body is unreachable: both send functions catch
    the write error themselves and [getConnectionInfo] cannot throw. *)
Definition dispatchStep (formId : string) (timestamp : Z) (changeType : ChangeType)
    (acc : SSEManager * SendStats) (connectionId : string) : SSEManager * SendStats :=
  let '(m, st) := acc in
  let '(sent, m') :=
    match changeType with
    | deleted => sendFormDeletedEvent connectionId formId timestamp m
    | _ => sendFormUpdateEvent connectionId formId timestamp changeType m
    end in
  if sent then
    (m', mkStats (S (successCount st)) (failureCount st)
           (failedConnections st) (deadConnections st))
  else
    (m', mkStats (successCount st) (S (failureCount st))
           (failedConnections st ++ [connectionId])
           (if hasConnection connectionId m'
            then deadConnections st
            else deadConnections st ++ [connectionId])).

Definition dispatchLoop (formId : string) (timestamp : Z) (changeType : ChangeType)
    (connectionIds : list string) (m : SSEManager) : SSEManager * SendStats :=
  foldl (dispatchStep formId timestamp changeType) (m, mkStats 0 0 [] []) connectionIds.

Definition unregisterAll (ids : list string) (n : FormUpdateNotifier)
  : FormUpdateNotifier :=
  foldl (λ acc c, unregisterPreviewConnection c acc) n ids.

Definition sendNotification (formId : string) (changeType : ChangeType)
    (formData : option FormioForm) (w : World) : World :=
  let timestamp := clock w in
  let trace := dispatches w ++ [mkDispatch timestamp formId changeType formData] in
  let connectionIds := getConnectionsByForm formId (notifier w) in
  if decide (length connectionIds = 0%nat) then
    mkWorld (clock w) (timers w) (nextTimer w) (sseManager w) (notifier w) trace
  else
    let '(m', st) := dispatchLoop formId timestamp changeType connectionIds (sseManager w) in
    mkWorld (clock w) (timers w) (nextTimer w) m'
      (unregisterAll (deadConnections st) (notifier w)) trace.

Definition debounceNotification (formId : string) (changeType : ChangeType)
    (formData : option FormioForm) (w : World) : World :=
  let w1 :=
    match pendingNotifications (notifier w) !! formId with
    | Some pending => clearTimeout pending w
    | None => w
    end in
  let '(timeout, w2) :=
    setTimeout formId changeType formData (debounceInterval (notifier w1)) w1 in
  withNotifier
    (withPending (<[formId := timeout]> (pendingNotifications (notifier w2))) (notifier w2))
    w2.

(** The body of the [setTimeout] callback. *)
Definition timerCallback (t : Timer) (w : World) : World :=
  let w1 := sendNotification (timerForm t) (timerChange t) (timerData t) w in
  withNotifier
    (withPending (delete (timerForm t) (pendingNotifications (notifier w1))) (notifier w1))
    w1.

Definition notifyFormUpdated (formId : string) (formData : option FormioForm)
    (w : World) : World :=
  debounceNotification formId updated formData w.

Definition notifyFormCreated (formId : string) (formData : option FormioForm)
    (w : World) : World :=
  sendNotification formId created formData w.

Definition notifyFormDeleted (formId : string) (w : World) : World :=
  let w1 := sendNotification formId deleted None w in
  let w2 :=
    match pendingNotifications (notifier w1) !! formId with
    | Some pending =>
      let w' := clearTimeout pending w1 in
      withNotifier
        (withPending (delete formId (pendingNotifications (notifier w'))) (notifier w'))
        w'
    | None => w1
    end in
  let connectionIds := getConnectionsByForm formId (notifier w2) in
  withNotifier
    (foldl (λ acc connectionId,
              match getConnectionInfo connectionId (sseManager w2) with
              | Some _ => unregisterPreviewConnection connectionId acc
              | None => acc
              end)
       (notifier w2) connectionIds)
    w2.

(** ** The event loop: running due timers *)

(** Timers run in order of due time, ties in order of creation. *)
Definition timerOrder (a b : nat * Timer) : Prop :=
  due a.2 < due b.2 ∨ (due a.2 = due b.2 ∧ (a.1 ≤ b.1)%nat).

#[global] Instance timerOrder_dec a b : Decision (timerOrder a b).
Proof. unfold timerOrder. apply _. Defined.

Definition dueTimers (t : Z) (w : World) : list (nat * Timer) :=
  merge_sort timerOrder (filter (λ p, due p.2 ≤ t) (map_to_list (timers w))).

(** Run one timer if it was not cleared meanwhile: the clock moves to its
    due time (never backwards), the handle is retired, the callback runs. *)
Definition fireTimer (w : World) (p : nat * Timer) : World :=
  match timers w !! p.1 with
  | Some tm =>
    timerCallback tm
      (mkWorld (Z.max (clock w) (due tm)) (delete p.1 (timers w)) (nextTimer w)
         (sseManager w) (notifier w) (dispatches w))
  | None => w
  end.

(** Let time pass until [t]: every timer due by then fires. *)
Definition advance (t : Z) (w : World) : World :=
  let w' := foldl fireTimer w (dueTimers t w) in
  mkWorld (Z.max (clock w') t) (timers w') (nextTimer w')
    (sseManager w') (notifier w') (dispatches w').

(** A burst of [notifyFormUpdated(f, data)] calls, each at its arrival time. *)
Definition updateAt (formId : string) (w : World) (call : Z * option FormioForm)
  : World :=
  notifyFormUpdated formId call.2 (advance call.1 w).

Definition burst (formId : string) (calls : list (Z * option FormioForm))
    (w : World) : World :=
  foldl (updateAt formId) w calls.


(** The representation invariant of the indices that the router's own
    methods maintain when form ids are non-empty strings. *)
Definition watchIndexInv (n : FormUpdateNotifier) : Prop :=
  (∀ c f, connectionForms n !! c = Some f → f ≠ "")
  ∧ (∀ c f, connectionForms n !! c = Some f ↔ c ∈ getConnectionsByForm f n)
  ∧ (∀ f, formWatchers n !! f ≠ Some [])
  ∧ (∀ f, NoDup (getConnectionsByForm f n)).

(** The frame a dispatch writes, by change type. *)
Definition eventFrame (formId : string) (timestamp : Z) (changeType : ChangeType)
  : Frame :=
  match changeType with
  | deleted => FormDeletedFrame formId timestamp
  | _ => FormUpdateFrame formId timestamp changeType
  end.

(** A connection after one write attempt of [fr] on its stream. *)
Definition attempted (fr : Frame) (c : SSEConnection) : SSEConnection :=
  setRes (res_write fr (res c)).2 c.

(** Every armed debounce timer is the pending one of its form, and handles
    are fresh: the invariant of the timer table. *)
Definition timersInv (w : World) : Prop :=
  (∀ h tm, timers w !! h = Some tm →
           pendingNotifications (notifier w) !! timerForm tm = Some h)
  ∧ (∀ h, is_Some (timers w !! h) → (h < nextTimer w)%nat).




(** The accepting path of [GET /preview-updates/:formId], after the form id
    and connection-limit checks: the stream joins the registry and is
    registered as a watcher of the form. *)
Definition acceptPreview (connectionId formId : string) (r : Response)
    (w : World) : World :=
  withNotifier
    (registerPreviewConnection connectionId formId (clock w) (notifier w))
    (withSSE (addConnection connectionId r None (clock w) (sseManager w)) w).

(** The environment breaks or blocks a stream. *)
Definition streamFails (connectionId : string) (b : WriteBehaviour) (w : World)
  : World :=
  withSSE (streamBecomes connectionId b (sseManager w)) w.

#[global] Instance WriteBehaviour_eq_dec : EqDecision WriteBehaviour.
Proof. solve_decision. Defined.


(** ** Exceptions and asynchronous code *)

(** A thrown value: an [Error] instance with its message, or any other value
    (such as the plain [FormioError] object the API client rejects with),
    with its [message] property when it has one. *)
Inductive Thrown :=
| ErrorInstance (message : string)
| OtherValue (message : option string).

(** The result of a call, or of an awaited promise. *)
Inductive Outcome (A : Type) :=
| Returns (a : A)
| Throws (e : Thrown).
Arguments Returns {A} a.
Arguments Throws {A} e.

(** Code with effects on a state [S] that may throw. *)
Definition M (S A : Type) : Type := S → Outcome A * S.

Definition ret {S A} (a : A) : M S A := λ s, (Returns a, s).

Definition throw {S A} (e : Thrown) : M S A := λ s, (Throws e, s).

Definition bind {S A B} (m : M S A) (k : A → M S B) : M S B :=
  λ s, match m s with
       | (Returns a, s') => k a s'
       | (Throws e, s') => (Throws e, s')
       end.

Definition tryCatch {S A} (body : M S A) (handler : Thrown → M S A) : M S A :=
  λ s, match body s with
       | (Returns a, s') => (Returns a, s')
       | (Throws e, s') => handler e s'
       end.

Definition lift {S A} (o : Outcome A) : M S A := λ s, (o, s).

Notation "'await' x ':=' m 'in' k" := (bind m (λ x, k))
  (at level 10, x name, m at level 100, k at level 200).
Notation "'exec' m 'in' k" := (bind m (λ _, k))
  (at level 10, m at level 100, k at level 200).

(** ** RPC Dispatch Bridge (HttpTransport) *)

(** A JSON-RPC id: a number, a string or null. *)
Inductive RequestId :=
| IdNumber (n : Z)
| IdString (s : string)
| IdNull.

(** [{jsonrpc, id?, method?, params?}]; an absent field is [None]. *)
Record JSONRPCMessage := mkMessage {
  msg_id : option RequestId;
  msg_method : option string;
  msg_params : option Json
}.

Inductive ResponseBody :=
| ResultBody (result : Json)
| ErrorBody (code : Z) (message : string).

(** [{jsonrpc: '2.0', id, result}] or [{jsonrpc: '2.0', id, error}]. *)
Record JSONRPCResponse := mkRpcResponse {
  resp_id : option RequestId;
  resp_body : ResponseBody
}.

Record HttpTransport (S : Type) := mkTransport {
  messageHandlers : gmap string (JSONRPCMessage → M S JSONRPCResponse)
}.
Arguments mkTransport {S} _.
Arguments messageHandlers {S} _.

Definition registerHandler {S} (method : string)
    (handler : JSONRPCMessage → M S JSONRPCResponse) (t : HttpTransport S)
  : HttpTransport S :=
  mkTransport (<[method := handler]> (messageHandlers t)).

(** Truthiness of an id value. *)
Definition truthy_id (i : RequestId) : bool :=
  match i with
  | IdNumber n => bool_decide (n ≠ 0)
  | IdString s => truthy_string s
  | IdNull => false
  end.

(** [(message as any).id || null]. *)
Definition idOrNull (i : option RequestId) : RequestId :=
  match i with
  | Some v => if truthy_id v then v else IdNull
  | None => IdNull
  end.

(** [err instanceof Error ? err.message : 'Internal error']. *)
Definition internalErrorMessage (err : Thrown) : string :=
  match err with
  | ErrorInstance message => message
  | OtherValue _ => "Internal error"
  end.

Definition handleRequestSync {S} (t : HttpTransport S) (message : JSONRPCMessage)
  : M S JSONRPCResponse :=
  tryCatch
    (match msg_method message with
     | None => throw (ErrorInstance "Invalid JSON-RPC message: missing method")
     | Some method =>
       match messageHandlers t !! method with
       | None =>
         ret (mkRpcResponse (msg_id message)
                (ErrorBody (-32601) ("Method not found: " +:+ method)))
       | Some handler => handler message
       end
     end)
    (λ err,
       ret (mkRpcResponse (Some (idOrNull (msg_id message)))
              (ErrorBody (-32603) (internalErrorMessage err)))).

(** The error path of [handleRequestSync]: the [method] field is missing, or
    the handler looked up throws. *)
Definition takesErrorPath {S} (t : HttpTransport S) (message : JSONRPCMessage)
    (s : S) : Prop :=
  msg_method message = None
  ∨ ∃ method handler e s',
      msg_method message = Some method
      ∧ messageHandlers t !! method = Some handler
      ∧ handler message s = (Throws e, s').

(** ** Tool handlers *)

Definition MCP_PATH_PREFIX : string := "mcp-".
Definition MCP_TITLE_PREFIX : string := "[MCP] ".

(** [s.startsWith(p)]. *)
Definition startsWith (p s : string) : bool := String.prefix p s.

(** Truthiness of a [boolean | undefined] value. *)
Definition truthy_bool (b : option bool) : bool := default false b.

(** [form.path?.startsWith(P) || form.title?.startsWith(T)]. *)
Definition isMCPForm (form : FormioForm) : option bool :=
  let byPath := startsWith MCP_PATH_PREFIX <$> path form in
  if truthy_bool byPath then byPath
  else startsWith MCP_TITLE_PREFIX <$> title form.

Definition dquote : string := String (Ascii.ascii_of_nat 34) EmptyString.

(** [`${form.title || form.name}`]. *)
Definition titleOrName (form : FormioForm) : string :=
  match title form with
  | Some t => if truthy_string t then t else default "undefined" (name form)
  | None => default "undefined" (name form)
  end.

Definition validateMCPOwnership (form : FormioForm) (operation : string)
  : Outcome unit :=
  if negb (truthy_bool (isMCPForm form)) then
    Throws (ErrorInstance
      ("Cannot " +:+ operation +:+ " form " +:+ dquote +:+ titleOrName form
       +:+ dquote +:+ ": This form was not created by MCP. MCP can only "
       +:+ operation +:+ " forms it created (prefixed with " +:+ dquote
       +:+ MCP_TITLE_PREFIX +:+ dquote +:+ " or path starting with "
       +:+ dquote +:+ MCP_PATH_PREFIX +:+ dquote +:+ ")."))
  else Returns tt.

(** Owned by this system, in the words of the data model: the title or the
    path carries the reserved prefix. *)
Definition ownedByMCP (form : FormioForm) : Prop :=
  (∃ t, title form = Some t ∧ startsWith "[MCP] " t = true)
  ∨ (∃ p, path form = Some p ∧ startsWith "mcp-" p = true).

(** The forms API client; its methods are asynchronous calls on the remote
    project, whose state is [S]. *)
Record FormioClient (S : Type) := mkClient {
  getForm : string → M S FormioForm;
  createForm : FormioForm → M S FormioForm;
  updateForm : string → FormioForm → M S FormioForm;
  deleteForm : string → M S unit
}.
Arguments mkClient {S} _ _ _ _.
Arguments getForm {S} _ _.
Arguments createForm {S} _ _.
Arguments updateForm {S} _ _ _.
Arguments deleteForm {S} _ _.

(** The arguments of a tool call, typed as the handlers cast them;
    [components] is inspected dynamically. *)
Record ToolArgs := mkArgs {
  arg_formId : string;
  arg_updates : FormioForm;
  arg_title : string;
  arg_path : string;
  arg_name : string;
  arg_components : option Json;
  arg_display : option string;
  arg_type : option string
}.

(** The cases of the [switch (name)] embedded here. *)
Inductive ToolName := get_form | create_form | update_form | delete_form.

(** The text content a tool returns, before serialisation. *)
Inductive ToolResult :=
| FormJson (form : FormioForm)
| FormCreated (form : FormioForm)
| FormUpdated (form : FormioForm)
| FormDeleted (formId : string).

(** [[a-z0-9\-\/]] and [[\-\/]]. *)
Definition isPathChar (c : Ascii.ascii) : bool :=
  let n := Ascii.nat_of_ascii c in
  ((97 <=? n) && (n <=? 122) || (48 <=? n) && (n <=? 57)
   || (n =? 45) || (n =? 47))%nat.

Definition isEdgeChar (c : Ascii.ascii) : bool :=
  let n := Ascii.nat_of_ascii c in ((n =? 45) || (n =? 47))%nat.

Fixpoint dropLeading (l : list Ascii.ascii) : list Ascii.ascii :=
  match l with
  | c :: rest => if isEdgeChar c then dropLeading rest else l
  | [] => []
  end.

(** [.replace(/[^a-z0-9\-\/]/g, '').replace(/^[\-\/]+|[\-\/]+$/g, '')] after
    [.toLowerCase()], which is the runtime's and is taken as given. *)
Definition normalizePath (toLowerCase : string → string) (p : string) : string :=
  let kept := List.filter isPathChar (String.list_ascii_of_string (toLowerCase p)) in
  String.string_of_list_ascii (rev (dropLeading (rev (dropLeading kept)))).

(** ASCII lower-casing, the behaviour of [toLowerCase] on ASCII text. *)
Definition asciiToLowerCase (s : string) : string :=
  String.string_of_list_ascii
    ((λ c, let n := Ascii.nat_of_ascii c in
           if ((65 <=? n) && (n <=? 90))%nat then Ascii.ascii_of_nat (n + 32) else c)
       <$> String.list_ascii_of_string s).

(** The [components] argument: an array, or an object wrapping one under the
    key [components]. *)
Definition componentsOf (c : option Json) : option Json :=
  match c with
  | Some (JArray items) => Some (JArray items)
  | Some (JObject fields) => (list_find (λ kv, kv.1 = "components") fields) ≫= (λ r, Some r.2.2)
  | _ => None
  end.

Definition orDefault (v : option string) (d : string) : string :=
  match v with
  | Some s => if truthy_string s then s else d
  | None => d
  end.

Definition executeToolCall {S} (toLowerCase : string → string)
    (formioClient : FormioClient S) (name : ToolName) (args : ToolArgs)
  : M S ToolResult :=
  match name with
  | get_form =>
    await form := getForm formioClient (arg_formId args) in
    ret (FormJson form)
  | create_form =>
    let title := arg_title args in
    let path := normalizePath toLowerCase (arg_path args) in
    if negb (truthy_string path) then
      throw (ErrorInstance
        "Invalid path: after normalization, path is empty. Path must contain letters or numbers.")
    else
      match componentsOf (arg_components args) with
      | None =>
        throw (ErrorInstance
          "Invalid components parameter: must be an array of component objects")
      | Some components =>
        let mcpTitle :=
          if startsWith MCP_TITLE_PREFIX title then title
          else MCP_TITLE_PREFIX +:+ title in
        let mcpPath :=
          if startsWith MCP_PATH_PREFIX path then path
          else MCP_PATH_PREFIX +:+ path in
        let formData :=
          mkForm None (Some mcpTitle) (Some (arg_name args)) (Some mcpPath)
            (Some components)
            (Some (orDefault (arg_display args) "form"))
            (Some (orDefault (arg_type args) "form")) in
        await createdForm := createForm formioClient formData in
        ret (FormCreated createdForm)
      end
  | update_form =>
    await existingForm := getForm formioClient (arg_formId args) in
    exec lift (validateMCPOwnership existingForm "update") in
    await updatedForm :=
      updateForm formioClient (arg_formId args) (arg_updates args) in
    ret (FormUpdated updatedForm)
  | delete_form =>
    await existingForm := getForm formioClient (arg_formId args) in
    exec lift (validateMCPOwnership existingForm "delete") in
    exec deleteForm formioClient (arg_formId args) in
    ret (FormDeleted (arg_formId args))
  end.

(** Observing the calls made on the forms API: the same client, with every
    call appended to a trace kept next to the remote state. *)
Inductive ApiCall :=
| CallGetForm (formIdOrPath : string)
| CallCreateForm (form : FormioForm)
| CallUpdateForm (formId : string) (form : FormioForm)
| CallDeleteForm (formId : string).

Definition traced {S A} (call : ApiCall) (m : M S A) : M (S * list ApiCall) A :=
  λ st, let '(r, s') := m st.1 in (r, (s', st.2 ++ [call])).

Definition recording {S} (c : FormioClient S) : FormioClient (S * list ApiCall) :=
  mkClient
    (λ i, traced (CallGetForm i) (getForm c i))
    (λ f, traced (CallCreateForm f) (createForm c f))
    (λ i f, traced (CallUpdateForm i f) (updateForm c i f))
    (λ i, traced (CallDeleteForm i) (deleteForm c i)).

Definition isUpdateCall (c : ApiCall) : bool :=
  match c with CallUpdateForm _ _ => true | _ => false end.

Definition isDeleteCall (c : ApiCall) : bool :=
  match c with CallDeleteForm _ => true | _ => false end.

Definition threw {A} (o : Outcome A) : bool :=
  match o with Throws _ => true | Returns _ => false end.

(** An in-memory forms project, for evaluating the tools: forms by id. *)
Definition memoryClient : FormioClient (gmap string FormioForm) :=
  mkClient
    (λ i s, match s !! i with
            | Some f => (Returns f, s)
            | None => (Throws (OtherValue (Some "Request failed with status code 404")), s)
            end)
    (λ f s, (Returns f, <[default "new" (path f) := f]> s))
    (λ i f s, match s !! i with
              | Some _ => (Returns f, <[i := f]> s)
              | None => (Throws (OtherValue (Some "Request failed with status code 404")), s)
              end)
    (λ i s, (Returns tt, delete i s)).

Definition mapOutcome {A B} (f : A → B) (o : Outcome A) : Outcome B :=
  match o with
  | Returns a => Returns (f a)
  | Throws e => Throws e
  end.

(** The [close] callbacks of a preview stream: the registry removes the
    connection, the route unregisters it from the router. *)
Definition closePreview (connectionId : string) (w : World) : World :=
  withNotifier
    (unregisterPreviewConnection connectionId (notifier w))
    (withSSE (removeConnection connectionId (sseManager w)) w).

(** The states the server process can be in.  The preview route answers 400
    to an empty (or blank) form id before it registers anything, so the
    router is only ever given non-empty form ids. *)
Inductive Reachable : World → Prop :=
| reach_start debounce idle : Reachable (newWorld debounce idle)
| reach_open w connectionId formId r :
    Reachable w → formId ≠ "" → Reachable (acceptPreview connectionId formId r w)
| reach_close w connectionId :
    Reachable w → Reachable (closePreview connectionId w)
| reach_drop w connectionId :
    Reachable w → Reachable (withSSE (removeConnection connectionId (sseManager w)) w)
| reach_stream w connectionId b :
    Reachable w → Reachable (streamFails connectionId b w)
| reach_created w formId formData :
    Reachable w → Reachable (notifyFormCreated formId formData w)
| reach_updated w formId formData :
    Reachable w → Reachable (notifyFormUpdated formId formData w)
| reach_deleted w formId :
    Reachable w → Reachable (notifyFormDeleted formId w)
| reach_time w t :
    Reachable w → Reachable (advance t w).

(** ** Form Update Router: idle eviction, shutdown and statistics *)

(** The first loop of [cleanupIdleConnections]: the tracked connections
    whose idle time exceeds the threshold. *)
Definition idleConnections (now : Z) (n : FormUpdateNotifier) : list string :=
  (filter (λ p : string * Z, idleTimeout n < now - p.2)
     (map_to_list (connectionActivity n))).*1.

(** [cleanupIdleConnections]: every idle connection found in the registry
    has its stream ended, and every idle connection is unregistered.  The
    result carries the ids whose stream was ended. *)
Definition cleanupIdleConnections (w : World) : World * list string :=
  let idle := idleConnections (clock w) (notifier w) in
  (withNotifier (unregisterAll idle (notifier w)) w,
   filter (λ c, is_Some (getConnectionInfo c (sseManager w))) idle).

(** [cleanup]: every pending timeout is cleared and every index emptied (the
    interval timer of the idle sweep is cleared as well; it is not one of
    the debounce timers of [timers]). *)
Definition cleanup (w : World) : World :=
  let w1 :=
    foldl (λ acc p, clearTimeout p.2 acc) w
      (map_to_list (pendingNotifications (notifier w))) in
  withNotifier
    (mkNotifier ∅ ∅ ∅ ∅ (debounceInterval (notifier w1)) (idleTimeout (notifier w1)))
    w1.

Record Stats := mkStatsOf {
  totalForms : nat;
  totalConnections : nat;
  connectionsPerForm : gmap string nat
}.

Definition getStats (n : FormUpdateNotifier) : Stats :=
  mkStatsOf (size (formWatchers n)) (size (connectionForms n))
    (length <$> formWatchers n).

(** The two running extrema of [getMetrics], over the activity stamps. *)
Definition oldestConnection (n : FormUpdateNotifier) : option Z :=
  foldl (λ acc t, match acc with
                  | Some o => if decide (t < o) then Some t else Some o
                  | None => Some t
                  end)
    None (map_to_list (connectionActivity n)).*2.

Definition newestConnection (n : FormUpdateNotifier) : option Z :=
  foldl (λ acc t, match acc with
                  | Some o => if decide (o < t) then Some t else Some o
                  | None => Some t
                  end)
    None (map_to_list (connectionActivity n)).*2.

(** ** Streaming Connection Registry: broadcast and call sequences *)

(** [broadcast]: [sendEvent] on every connection, counting the writes that
    returned [true]. *)
Definition broadcast (fr : Frame) (m : SSEManager) : nat * SSEManager :=
  foldl (λ acc c,
           let '(ok, m') := sendEvent c fr acc.2 in
           (if ok then S acc.1 else acc.1, m'))
    (0%nat, m) (map_to_list (connections m)).*1.

Inductive RegistryCall :=
| AddConnection (connectionId : string) (r : Response) (info : option string) (now : Z)
| RemoveConnection (connectionId : string)
| SendEvent (connectionId : string) (fr : Frame)
| Broadcast (fr : Frame).

Definition registryCall (c : RegistryCall) (m : SSEManager) : SSEManager :=
  match c with
  | AddConnection cid r info now => addConnection cid r info now m
  | RemoveConnection cid => removeConnection cid m
  | SendEvent cid fr => (sendEvent cid fr m).2
  | Broadcast fr => (broadcast fr m).2
  end.

Definition registryCalls (cs : list RegistryCall) (m : SSEManager) : SSEManager :=
  foldl (λ acc c, registryCall c acc) m cs.

(** The heartbeat timer runs exactly when the registry is not empty. *)
Definition heartbeatInv (m : SSEManager) : Prop :=
  heartbeatInterval m = true ↔ connections m ≠ ∅.

(** The write on a connection's stream would return [true]. *)
Definition writesOk (m : SSEManager) (c : string) : bool :=
  match connections m !! c with
  | Some conn => bool_decide (writes (res conn) = WriteOk)
  | None => false
  end.

(** A connection after [sendEvent]: evicted when the write throws. *)
Definition afterSendEvent (fr : Frame) (conn : SSEConnection) : option SSEConnection :=
  if decide (writes (res conn) = WriteThrows) then None else Some (attempted fr conn).

(** ** Streams and the trace of dispatches *)


(** What has been written to the stream of a connection. *)
Definition streamOf (c : string) (w : World) : list Frame :=
  match connections (sseManager w) !! c with
  | Some conn => written (res conn)
  | None => []
  end.



(** Calls into the router from the tool handlers, and the passing of time. *)
Inductive RouterEvent :=
| OnFormUpdated (formId : string) (formData : option FormioForm)
| OnFormCreated (formId : string) (formData : option FormioForm)
| TimePasses (t : Z).

Definition routerEvent (w : World) (e : RouterEvent) : World :=
  match e with
  | OnFormUpdated f d => notifyFormUpdated f d w
  | OnFormCreated f d => notifyFormCreated f d w
  | TimePasses t => advance t w
  end.

(** ** The preview-updates route *)

Inductive PreviewReply := BadRequest | ServiceUnavailable | EventStream.

(** [GET /preview-updates/:formId]: 400 for a missing or blank form id, 503
    when the router already counts [maxPreviewConnections] connections,
    otherwise the stream is opened under the fresh [connectionId].
    [String.prototype.trim] is the runtime's and is taken as given. *)
Definition previewUpdatesRoute (trim : string → string) (maxPreviewConnections : Z)
    (formId connectionId : string) (r : Response) (w : World)
  : PreviewReply * World :=
  if negb (truthy_string formId) || bool_decide (trim formId = "") then
    (BadRequest, w)
  else if decide (maxPreviewConnections
                  ≤ Z.of_nat (totalConnections (getStats (notifier w)))) then
    (ServiceUnavailable, w)
  else (EventStream, acceptPreview connectionId formId r w).

(** Trimming of ASCII white space, the behaviour of [trim] on ASCII text. *)
Definition isAsciiSpace (c : Ascii.ascii) : bool :=
  let n := Ascii.nat_of_ascii c in ((n =? 32) || (9 <=? n) && (n <=? 13))%nat.

Fixpoint dropSpaces (l : list Ascii.ascii) : list Ascii.ascii :=
  match l with
  | c :: rest => if isAsciiSpace c then dropSpaces rest else l
  | [] => []
  end.

Definition asciiTrim (s : string) : string :=
  String.string_of_list_ascii
    (rev (dropSpaces (rev (dropSpaces (String.list_ascii_of_string s))))).

(** What happens to the server process while it serves previews. *)
Inductive ServerEvent :=
| PreviewRequest (formId connectionId : string) (r : Response)
| PreviewClosed (connectionId : string)
| StreamChanges (connectionId : string) (b : WriteBehaviour)
| RouterActivity (e : RouterEvent)
| OnFormDeleted (formId : string)
| IdleSweep.

Definition serverEvent (trim : string → string) (maxPreviewConnections : Z)
    (w : World) (e : ServerEvent) : World :=
  match e with
  | PreviewRequest formId connectionId r =>
    (previewUpdatesRoute trim maxPreviewConnections formId connectionId r w).2
  | PreviewClosed connectionId => closePreview connectionId w
  | StreamChanges connectionId b => streamFails connectionId b w
  | RouterActivity e => routerEvent w e
  | OnFormDeleted formId => notifyFormDeleted formId w
  | IdleSweep => (cleanupIdleConnections w).1
  end.

(** ** The shape of the paths sent to the forms API *)

(** Only [a-z0-9-/], the reserved prefix followed by at least one more
    character, and no [-] or [/] at the end. *)
Definition mcpPathShape (p : string) : Prop :=
  let l := String.list_ascii_of_string p in
  Forall (λ c, isPathChar c = true) l
  ∧ startsWith MCP_PATH_PREFIX p = true
  ∧ (4 < length l)%nat
  ∧ ∀ c, last l = Some c → isEdgeChar c = false.

(** ** HTML escaping in the preview templates *)

From Stdlib Require Import Ascii.

Definition dquoteChar : Ascii.ascii := Ascii.ascii_of_nat 34.

(** [.replace(/c/g, replacement)] for a single character [c] and a
    replacement without [$] patterns. *)
Definition replaceAll (c : Ascii.ascii) (replacement : string)
    (l : list Ascii.ascii) : list Ascii.ascii :=
  flat_map (λ x, if Ascii.ascii_dec x c
                 then String.list_ascii_of_string replacement else [x]) l.

Definition escapeHtml (unsafe : string) : string :=
  String.string_of_list_ascii
    (replaceAll "'"%char "&#039;"
       (replaceAll dquoteChar "&quot;"
          (replaceAll ">"%char "&gt;"
             (replaceAll "<"%char "&lt;"
                (replaceAll "&"%char "&amp;" (String.list_ascii_of_string unsafe)))))).

(** The characters that open or close markup and attribute values. *)
Definition isHtmlSpecial (c : Ascii.ascii) : bool :=
  bool_decide (c ∈ ["<"%char; ">"%char; dquoteChar; "'"%char]).

(** ** Authentication middleware *)

Record HttpConfig := mkHttpConfig {
  requireAuth : bool;
  apiKeys : list string
}.

(** The bodies the endpoints reply with: [{jsonrpc, error: {code, message}}],
    [{accepted: true, notification}] and a JSON-RPC response. *)
Inductive HttpBody :=
| RpcErrorReply (code : Z) (message : string)
| AcceptedReply (notification : option string)
| RpcReply (response : JSONRPCResponse).

Record HttpReply := mkReply {
  reply_status : Z;
  reply_body : HttpBody
}.

(** [\s] and the line terminators (which [.] does not match), on the
    Latin-1 characters of a header value. *)
Definition isRegexSpace (c : Ascii.ascii) : bool :=
  let n := Ascii.nat_of_ascii c in
  ((9 <=? n) && (n <=? 13) || (n =? 32) || (n =? 160))%nat.

Definition isLineTerminator (c : Ascii.ascii) : bool :=
  let n := Ascii.nat_of_ascii c in ((n =? 10) || (n =? 13))%nat.

(** [(.+)$]: the whole remainder, not empty and without line terminator. *)
Definition wholeToken (l : list Ascii.ascii) : option (list Ascii.ascii) :=
  match l with
  | [] => None
  | _ => if forallb (λ c, negb (isLineTerminator c)) l then Some l else None
  end.

(** [\s+(.+)$] at [l]: the quantifier is greedy, so after one white-space
    character one more iteration is tried first, and the match falls back
    to ending the run here. *)
Fixpoint spacesToken (l : list Ascii.ascii) : option (list Ascii.ascii) :=
  match l with
  | c :: rest =>
    if isRegexSpace c then
      match spacesToken rest with
      | Some token => Some token
      | None => wholeToken rest
      end
    else None
  | [] => None
  end.

(** [authHeader.match(/^Bearer\s+(.+)$/i)], giving [match[1]]. *)
Definition matchBearer (authHeader : string) : option string :=
  let l := String.list_ascii_of_string authHeader in
  if bool_decide (asciiToLowerCase (String.string_of_list_ascii (take 6 l)) = "bearer")
  then String.string_of_list_ascii <$> spacesToken (drop 6 l)
  else None.

(** What [match[1]] can be: not empty, without line terminator, and with
    white space at its start only when it is that single character (the
    greedy [\s+] takes every white-space character it can). *)
Definition usableToken (token : string) : Prop :=
  token ≠ ""
  ∧ Forall (λ c, isLineTerminator c = false) (String.list_ascii_of_string token)
  ∧ ∀ c rest, token = String c rest → isRegexSpace c = true → rest = "".

Inductive AuthResult :=
| Next
| Denied (reply : HttpReply).

(** [createAuthMiddleware(config)] applied to a request with the given
    [Authorization] header. *)
Definition createAuthMiddleware (config : HttpConfig) (authorization : option string)
  : AuthResult :=
  if negb (requireAuth config) then Next
  else
    match authorization with
    | Some authHeader =>
      if truthy_string authHeader then
        match matchBearer authHeader with
        | Some token =>
          if bool_decide (token ∈ apiKeys config) then Next
          else Denied (mkReply 403 (RpcErrorReply (-32600) "Invalid API key"))
        | None =>
          Denied (mkReply 401 (RpcErrorReply (-32600)
            "Invalid Authorization header format. Expected: Bearer <token>"))
        end
      else Denied (mkReply 401 (RpcErrorReply (-32600) "Missing Authorization header"))
    | None => Denied (mkReply 401 (RpcErrorReply (-32600) "Missing Authorization header"))
    end.

(** ** The direct JSON-RPC endpoint *)

(** A parsed request body that is an object: its [jsonrpc] field and the
    message fields the bridge reads.  A missing or falsy body is [None]. *)
Record RpcEnvelope := mkEnvelope {
  env_jsonrpc : option Json;
  env_message : JSONRPCMessage
}.

(** [!message || !message.jsonrpc || message.jsonrpc !== '2.0'], negated. *)
Definition isJsonRpc2 (body : option RpcEnvelope) : bool :=
  match env_jsonrpc <$> body with
  | Some (Some (JString version)) => bool_decide (version = "2.0")
  | _ => false
  end.

(** [POST basePath], behind the authentication middleware. *)
Definition postDirect {S} (config : HttpConfig) (transport : HttpTransport S)
    (authorization : option string) (body : option RpcEnvelope) : M S HttpReply :=
  match createAuthMiddleware config authorization with
  | Denied reply => ret reply
  | Next =>
    tryCatch
      (match body with
       | Some envelope =>
         let message := env_message envelope in
         if negb (isJsonRpc2 body) then
           ret (mkReply 400 (RpcErrorReply (-32600) "Invalid JSON-RPC 2.0 request"))
         else
           match msg_id message with
           | None => ret (mkReply 202 (AcceptedReply (msg_method message)))
           | Some _ =>
             await response := handleRequestSync transport message in
             ret (mkReply 200 (RpcReply response))
           end
       | None => ret (mkReply 400 (RpcErrorReply (-32600) "Invalid JSON-RPC 2.0 request"))
       end)
      (λ _, ret (mkReply 500 (RpcErrorReply (-32603) "Internal server error")))
  end.

(** ** The tools/call handler of the HTTP mode *)

(** The handler registered for [tools/call].  [request.params] is
    destructured and cast without checks and the tool's result is put into
    the response as it is: [toolCallOf] and [resultJson] stand for the two,
    for requests that name one of the tools embedded here. *)
Definition toolsCallHandler {S} (toLowerCase : string → string)
    (formioClient : FormioClient S)
    (toolCallOf : JSONRPCMessage → ToolName * option ToolArgs)
    (resultJson : ToolResult → Json)
    (request : JSONRPCMessage) : M S JSONRPCResponse :=
  let '(name, toolArgs) := toolCallOf request in
  match toolArgs with
  | None => throw (ErrorInstance "Missing arguments")
  | Some args =>
    await result := executeToolCall toLowerCase formioClient name args in
    ret (mkRpcResponse (msg_id request) (ResultBody (resultJson result)))
  end.

(** * Proofs *)

Example ex_register_twice :
  getConnectionsByForm "f1"
    (routerCalls [Register "c1" "f1" 0; Register "c2" "f1" 1; Register "c1" "f1" 2]
       (newNotifier 500 300000)) = ["c1"; "c2"].
Proof. vm_compute. reflexivity. Qed.

(** ** Sets as insertion-ordered lists *)

Lemma elem_of_set_add x c s : x ∈ set_add c s ↔ x = c ∨ x ∈ s.
Proof.
  unfold set_add. case_decide.
  - split; [by right | intros [->|]; done].
  - rewrite elem_of_app, list_elem_of_singleton. tauto.
Qed.

Lemma elem_of_set_delete x c s : x ∈ set_delete c s ↔ x ≠ c ∧ x ∈ s.
Proof. unfold set_delete. by rewrite list_elem_of_filter. Qed.

Lemma set_add_present c s : c ∈ s → set_add c s = s.
Proof. unfold set_add. intros. by case_decide. Qed.

Lemma set_add_not_nil c s : set_add c s ≠ [].
Proof.
  intros Hnil. assert (c ∈ set_add c s) as Hin by (apply elem_of_set_add; by left).
  rewrite Hnil in Hin. by apply not_elem_of_nil in Hin.
Qed.

Lemma set_add_NoDup c s : NoDup s → NoDup (set_add c s).
Proof.
  unfold set_add. intros Hnd. case_decide; [done|].
  apply NoDup_app. split_and!; [done | | apply NoDup_singleton].
  intros x Hx ->%list_elem_of_singleton. done.
Qed.

Lemma set_delete_NoDup c s : NoDup s → NoDup (set_delete c s).
Proof. unfold set_delete. apply NoDup_filter. Qed.

(** ** The watch indices under [insertWatch] and [unregisterPreviewConnection] *)

Lemma formWatchers_insertWatch c f now n :
  formWatchers (insertWatch c f now n)
  = <[f := set_add c (getConnectionsByForm f n)]> (formWatchers n).
Proof.
  unfold insertWatch, getConnectionsByForm. simpl.
  apply map_eq. intros k.
  destruct (formWatchers n !! f) as [ws|] eqn:Hf.
  - destruct (decide (f = k)) as [->|Hne].
    + by rewrite lookup_alter_eq, Hf, lookup_insert_eq.
    + by rewrite lookup_alter_ne, lookup_insert_ne.
  - destruct (decide (f = k)) as [->|Hne].
    + by rewrite lookup_alter_eq, !lookup_insert_eq.
    + by rewrite lookup_alter_ne, !lookup_insert_ne.
Qed.

Lemma getConnectionsByForm_insertWatch c f now n f' :
  getConnectionsByForm f' (insertWatch c f now n)
  = if decide (f' = f) then set_add c (getConnectionsByForm f n)
    else getConnectionsByForm f' n.
Proof.
  unfold getConnectionsByForm at 1. rewrite formWatchers_insertWatch.
  case_decide as Hf.
  - subst. by rewrite lookup_insert_eq.
  - by rewrite lookup_insert_ne.
Qed.

Lemma unregister_unwatched c n :
  connectionForms n !! c = None → unregisterPreviewConnection c n = n.
Proof. unfold unregisterPreviewConnection. by intros ->. Qed.

Lemma getConnectionsByForm_unregister c f n f' :
  connectionForms n !! c = Some f → f ≠ "" →
  getConnectionsByForm f' (unregisterPreviewConnection c n)
  = if decide (f' = f) then set_delete c (getConnectionsByForm f n)
    else getConnectionsByForm f' n.
Proof.
  intros Hc Hf. unfold unregisterPreviewConnection. rewrite Hc.
  unfold truthy_string. rewrite bool_decide_eq_true_2 by done.
  unfold getConnectionsByForm. simpl.
  destruct (formWatchers n !! f) as [ws|] eqn:Hws.
  - case_decide as Hlen.
    + case_decide as Hff.
      * subst. rewrite lookup_delete_eq. by destruct (set_delete c ws).
      * by rewrite lookup_delete_ne.
    + case_decide as Hff.
      * subst. by rewrite lookup_insert_eq.
      * by rewrite lookup_insert_ne.
  - case_decide as Hff; [subst; by rewrite Hws | done].
Qed.

Lemma connectionForms_unregister c f n c' :
  connectionForms n !! c = Some f → f ≠ "" →
  connectionForms (unregisterPreviewConnection c n) !! c'
  = if decide (c' = c) then None else connectionForms n !! c'.
Proof.
  intros Hc Hf. unfold unregisterPreviewConnection. rewrite Hc.
  unfold truthy_string. rewrite bool_decide_eq_true_2 by done. simpl.
  case_decide; [subst; apply lookup_delete_eq | by apply lookup_delete_ne].
Qed.

Lemma formWatchers_unregister_not_nil c n f' :
  formWatchers n !! f' ≠ Some [] →
  formWatchers (unregisterPreviewConnection c n) !! f' ≠ Some [].
Proof.
  intros Hne. unfold unregisterPreviewConnection.
  destruct (connectionForms n !! c) as [f|]; [|done].
  destruct (truthy_string f); [|done]. simpl.
  destruct (formWatchers n !! f) as [ws|] eqn:Hws; [|done].
  case_decide as Hlen.
  - destruct (decide (f = f')) as [->|?];
      [by rewrite lookup_delete_eq | by rewrite lookup_delete_ne].
  - destruct (decide (f = f')) as [->|?]; [|by rewrite lookup_insert_ne].
    rewrite lookup_insert_eq. intros [= Hnil]. by rewrite Hnil in Hlen.
Qed.

Lemma watchIndexInv_new d i : watchIndexInv (newNotifier d i).
Proof.
  unfold watchIndexInv, getConnectionsByForm. simpl. split_and!.
  - intros c f. by rewrite lookup_empty.
  - intros c f. rewrite !lookup_empty. split; [done|].
    by intros ?%not_elem_of_nil.
  - intros f. by rewrite lookup_empty.
  - intros f. rewrite lookup_empty. apply NoDup_nil_2.
Qed.

Lemma watchIndexInv_unregister c n :
  watchIndexInv n → watchIndexInv (unregisterPreviewConnection c n).
Proof.
  intros (Hne & Hiff & Hnil & Hnd).
  destruct (connectionForms n !! c) as [f|] eqn:Hc;
    [|by rewrite unregister_unwatched].
  pose proof (Hne _ _ Hc) as Hf. split_and!.
  - intros c' f'. rewrite (connectionForms_unregister c f) by done.
    case_decide; [done | apply Hne].
  - intros c' f'. rewrite (connectionForms_unregister c f) by done.
    rewrite (getConnectionsByForm_unregister c f) by done.
    destruct (decide (c' = c)) as [->|Hcc].
    + split; [done|]. case_decide as Hff.
      * rewrite elem_of_set_delete. tauto.
      * intros Hin%Hiff. congruence.
    + rewrite Hiff. case_decide as Hff; [|done].
      subst. rewrite elem_of_set_delete. tauto.
  - intros f'. by apply formWatchers_unregister_not_nil.
  - intros f'. rewrite (getConnectionsByForm_unregister c f) by done.
    case_decide; [apply set_delete_NoDup|]; apply Hnd.
Qed.

Lemma watchIndexInv_insertWatch c f now n :
  f ≠ "" → connectionForms n !! c = None →
  watchIndexInv n → watchIndexInv (insertWatch c f now n).
Proof.
  intros Hf Hc (Hne & Hiff & Hnil & Hnd). split_and!.
  - intros c' f'. simpl. destruct (decide (c = c')) as [->|Hcc].
    + rewrite lookup_insert_eq. congruence.
    + rewrite lookup_insert_ne by done. apply Hne.
  - intros c' f'. rewrite getConnectionsByForm_insertWatch. simpl.
    destruct (decide (c = c')) as [->|Hcc].
    + rewrite lookup_insert_eq. case_decide as Hff.
      * subst. rewrite elem_of_set_add. split; [by left | done].
      * split; [congruence|]. intros Hin%Hiff. congruence.
    + rewrite lookup_insert_ne by done. rewrite Hiff. case_decide as Hff; [|done].
      subst. rewrite elem_of_set_add. split; [by right | by intros [->|]].
  - intros f'. rewrite formWatchers_insertWatch.
    destruct (decide (f = f')) as [->|?].
    + rewrite lookup_insert_eq. intros [= Habs]. by apply set_add_not_nil in Habs.
    + by rewrite lookup_insert_ne.
  - intros f'. rewrite getConnectionsByForm_insertWatch.
    case_decide; [apply set_add_NoDup|]; apply Hnd.
Qed.

Lemma watchIndexInv_register c f now n :
  f ≠ "" → watchIndexInv n → watchIndexInv (registerPreviewConnection c f now n).
Proof.
  intros Hf Hinv. unfold registerPreviewConnection.
  destruct (connectionForms n !! c) as [e|] eqn:Hc;
    [|by apply watchIndexInv_insertWatch].
  assert (e ≠ "") as He by (destruct Hinv as (Hne & _); by eapply Hne).
  unfold truthy_string. rewrite bool_decide_eq_true_2 by done.
  case_decide as Hef.
  - apply watchIndexInv_insertWatch; [done | | by apply watchIndexInv_unregister].
    rewrite (connectionForms_unregister c e) by done. by case_decide.
  - destruct Hinv as (Hne & Hiff & Hnil & Hnd). split_and!; done.
Qed.

Lemma watchIndexInv_calls cs n :
  Forall registersNonEmptyForm cs → watchIndexInv n →
  watchIndexInv (routerCalls cs n).
Proof.
  intros Hcs. revert n. induction Hcs as [|c cs Hc _ IH]; intros n Hinv; [done|].
  simpl. apply IH. destruct c as [cid fid now|cid]; simpl in *.
  - by apply watchIndexInv_register.
  - by apply watchIndexInv_unregister.
Qed.

Lemma elem_of_watchedConnections c n :
  c ∈ watchedConnections n ↔ ∃ f, c ∈ getConnectionsByForm f n.
Proof.
  unfold watchedConnections, getConnectionsByForm.
  rewrite elem_of_union_list. split.
  - intros (X & HX & Hc). apply list_elem_of_fmap in HX as ([f ws] & -> & Hfw).
    apply elem_of_map_to_list in Hfw. exists f. rewrite Hfw.
    by apply elem_of_list_to_set in Hc.
  - intros (f & Hc). destruct (formWatchers n !! f) as [ws|] eqn:Hfw;
      [|by apply not_elem_of_nil in Hc].
    exists (list_to_set ws). split; [|by apply elem_of_list_to_set].
    apply list_elem_of_fmap. exists (f, ws). split; [done|].
    by apply elem_of_map_to_list.
Qed.

Lemma watchIndexInv_consistent n : watchIndexInv n → indicesConsistent n.
Proof.
  intros (Hne & Hiff & Hnil & _). split_and!; [| |done].
  - intros c f. split.
    + intros Hc. split; [by apply Hiff|].
      intros f' Hin%Hiff. congruence.
    + intros [Hin _]. by apply Hiff.
  - apply set_eq. intros c.
    rewrite elem_of_watchedConnections, elem_of_dom. split.
    + intros (f & Hin%Hiff). by exists f.
    + intros (f & Hf%Hiff). by exists f.
Qed.

(** ** Claims on the watch indices *)

(** C1 (as stated, refuted): registering a connection for the empty form id
    and then for another form leaves it in two watcher sets, because the
    already-registered test [if (existingFormId)] is a truthiness test. *)
Lemma indices_inconsistent_empty_form :
  ¬ indicesConsistent
      (routerCalls [Register "c1" "" 0; Register "c1" "f2" 1]
         (newNotifier 500 300000)).
Proof.
  intros (Hiff & _).
  assert (connectionForms
            (routerCalls [Register "c1" "" 0; Register "c1" "f2" 1]
               (newNotifier 500 300000)) !! "c1" = Some "f2") as Hc
    by (vm_compute; reflexivity).
  apply Hiff in Hc as [_ Huniq].
  specialize (Huniq "").
  assert ("" = "f2") as Habs; [|discriminate Habs].
  apply Huniq. vm_compute. apply list_elem_of_here.
Qed.

(** C1 (amended): for every sequence of registerPreviewConnection /
    unregisterPreviewConnection calls from the empty state in which every
    registered form id is a non-empty string, a connection id is in exactly
    one form's watcher set iff the reverse index maps it to that form, the
    union of the forward-index sets is the key set of the reverse index, and
    no form id is mapped to an empty set. *)
Theorem indices_consistent_after_calls (cs : list RouterCall) (debounce idle : Z) :
  Forall registersNonEmptyForm cs →
  indicesConsistent (routerCalls cs (newNotifier debounce idle)).
Proof.
  intros Hcs. apply watchIndexInv_consistent.
  apply watchIndexInv_calls; [done | apply watchIndexInv_new].
Qed.

Lemma indices_consistent_after_calls_witness :
  Forall registersNonEmptyForm
    [Register "c1" "f1" 0; Register "c2" "f1" 1; Register "c1" "f2" 2;
     Unregister "c2"]
  ∧ indicesConsistent
      (routerCalls
         [Register "c1" "f1" 0; Register "c2" "f1" 1; Register "c1" "f2" 2;
          Unregister "c2"]
         (newNotifier 500 300000)).
Proof.
  assert (Forall registersNonEmptyForm
            [Register "c1" "f1" 0; Register "c2" "f1" 1; Register "c1" "f2" 2;
             Unregister "c2"]) as Hcs
    by (repeat constructor; simpl; discriminate).
  split; [exact Hcs|].
  exact (indices_consistent_after_calls _ 500 300000 Hcs).
Defined.

Lemma connectionForms_register c f now n :
  connectionForms (registerPreviewConnection c f now n) !! c = Some f.
Proof.
  unfold registerPreviewConnection.
  destruct (connectionForms n !! c) as [e|] eqn:Hc;
    [|simpl; apply lookup_insert_eq].
  destruct (truthy_string e); [|simpl; apply lookup_insert_eq].
  case_decide as Hef; [simpl; apply lookup_insert_eq|].
  simpl. by subst.
Qed.

Lemma register_empty_form_watched c now n :
  c ∈ getConnectionsByForm "" (registerPreviewConnection c "" now n).
Proof.
  assert (∀ m, c ∈ getConnectionsByForm "" (insertWatch c "" now m)) as Hins.
  { intros m. rewrite getConnectionsByForm_insertWatch.
    rewrite decide_True by done. apply elem_of_set_add. by left. }
  unfold registerPreviewConnection.
  destruct (connectionForms n !! c) as [e|] eqn:Hc; [|apply Hins].
  unfold truthy_string. case_bool_decide as He; [|apply Hins].
  rewrite decide_True by done. apply Hins.
Qed.

Lemma insertWatch_again c f now n :
  connectionForms n !! c = Some f → c ∈ getConnectionsByForm f n →
  formWatchers (insertWatch c f now n) = formWatchers n
  ∧ connectionForms (insertWatch c f now n) = connectionForms n.
Proof.
  intros Hc Hin. rewrite formWatchers_insertWatch. simpl. split.
  - rewrite set_add_present by done. apply insert_id.
    unfold getConnectionsByForm in *.
    destruct (formWatchers n !! f); [done | by apply not_elem_of_nil in Hin].
  - by apply insert_id.
Qed.

(** Registering the same connection for the same form twice leaves both
    indices and the pending timers as after the first call; only the
    activity stamp is refreshed. *)
Lemma register_twice_same_form c f now1 now2 n :
  let n1 := registerPreviewConnection c f now1 n in
  let n2 := registerPreviewConnection c f now2 n1 in
  formWatchers n2 = formWatchers n1
  ∧ connectionForms n2 = connectionForms n1
  ∧ connectionActivity n2 = <[c := now2]> (connectionActivity n1)
  ∧ pendingNotifications n2 = pendingNotifications n1.
Proof.
  intros n1 n2. subst n2.
  pose proof (connectionForms_register c f now1 n) as Hc. fold n1 in Hc.
  assert (f = "" → c ∈ getConnectionsByForm "" n1) as Hin
    by (intros ->; apply register_empty_form_watched).
  clearbody n1. unfold registerPreviewConnection. rewrite Hc.
  unfold truthy_string. case_bool_decide as Hf.
  - rewrite decide_False by (intros Hne; by apply Hne). done.
  - subst f.
    destruct (insertWatch_again c "" now2 n1 Hc (Hin eq_refl)) as [Hfw Hcf].
    rewrite Hfw, Hcf. done.
Qed.

(** C6 (as stated, refuted): a connection registered for the empty form id
    and then for "f2" is still listed among the watchers of the former. *)
Lemma reregister_empty_form_keeps_old_watch :
  let n1 := registerPreviewConnection "c1" "" 0 (newNotifier 500 300000) in
  let n2 := registerPreviewConnection "c1" "f2" 1 n1 in
  getFormByConnection "c1" n1 = Some ""
  ∧ "c1" ∈ getConnectionsByForm "" n1
  ∧ "f2" ≠ ""
  ∧ "c1" ∈ getConnectionsByForm "" n2.
Proof.
  simpl. split_and!.
  - vm_compute. reflexivity.
  - vm_compute. apply list_elem_of_here.
  - discriminate.
  - vm_compute. apply list_elem_of_here.
Qed.

(** C6 (amended): for a connection c1 registered for a non-empty form id f1,
    registerPreviewConnection(c1, f2) with f2 different from f1 moves the
    watch: getFormByConnection(c1) is f2 and getConnectionsByForm(f1) no
    longer contains c1; and registering a connection for the same form twice
    leaves the indices as after the first call, only the activity timestamp
    being refreshed. *)
Theorem reregister_moves_watch (n : FormUpdateNotifier) (c1 f1 f2 : string) (now : Z) :
  getFormByConnection c1 n = Some f1 → f1 ≠ "" → f2 ≠ f1 →
  (let n' := registerPreviewConnection c1 f2 now n in
   getFormByConnection c1 n' = Some f2 ∧ c1 ∉ getConnectionsByForm f1 n')
  ∧ (∀ m f now1 now2,
       let m1 := registerPreviewConnection c1 f now1 m in
       let m2 := registerPreviewConnection c1 f now2 m1 in
       formWatchers m2 = formWatchers m1
       ∧ connectionForms m2 = connectionForms m1
       ∧ connectionActivity m2 = <[c1 := now2]> (connectionActivity m1)).
Proof.
  intros Hc Hf1 Hne. split.
  - simpl. split; [apply connectionForms_register|].
    unfold getFormByConnection in Hc.
    unfold registerPreviewConnection. rewrite Hc.
    unfold truthy_string. rewrite bool_decide_eq_true_2 by done.
    rewrite decide_True by done.
    rewrite getConnectionsByForm_insertWatch, decide_False by done.
    rewrite (getConnectionsByForm_unregister c1 f1) by done.
    rewrite decide_True by done. rewrite elem_of_set_delete. tauto.
  - intros m f now1 now2.
    destruct (register_twice_same_form c1 f now1 now2 m) as (? & ? & ? & _).
    done.
Qed.

Lemma reregister_moves_watch_witness :
  let n := registerPreviewConnection "c1" "f1" 0 (newNotifier 500 300000) in
  let n' := registerPreviewConnection "c1" "f2" 1 n in
  getFormByConnection "c1" n' = Some "f2" ∧ "c1" ∉ getConnectionsByForm "f1" n'.
Proof.
  intros n n'.
  assert (getFormByConnection "c1" n = Some "f1") as Hc by (vm_compute; reflexivity).
  assert ("f1" ≠ "") as Hf1 by discriminate.
  assert ("f2" ≠ "f1") as Hne by discriminate.
  exact (proj1 (reregister_moves_watch n "c1" "f1" "f2" 1 Hc Hf1 Hne)).
Defined.

(** ** The dispatch loop *)

Lemma sendFrame_connections c fr m k :
  connections (sendFrame c fr m).2 !! k
  = if decide (k = c) then attempted fr <$> connections m !! c
    else connections m !! k.
Proof.
  unfold sendFrame, getConnectionInfo, attempted.
  destruct (connections m !! c) as [conn|] eqn:Hc; simpl.
  - destruct (res_write fr (res conn)) as [r res'] eqn:Hw. simpl.
    case_decide as Hk; [subst; by rewrite lookup_insert_eq|].
    by rewrite lookup_insert_ne.
  - case_decide; [by subst | done].
Qed.

Lemma hasConnection_sendFrame k c fr m :
  hasConnection k (sendFrame c fr m).2 = hasConnection k m.
Proof.
  unfold hasConnection. rewrite sendFrame_connections.
  case_decide as Hk; [|done]. subst.
  by destruct (connections m !! c).
Qed.

Lemma sendFrame_sent c fr m :
  (sendFrame c fr m).1 = true
  ↔ ∃ conn, connections m !! c = Some conn ∧ writes (res conn) = WriteOk.
Proof.
  unfold sendFrame, getConnectionInfo, res_write.
  destruct (connections m !! c) as [conn|]; simpl.
  - destruct (writes (res conn)) eqn:Hw; simpl; split; try done.
    + intros _. by exists conn.
    + intros (? & [= <-] & ?). congruence.
    + intros (? & [= <-] & ?). congruence.
  - split; [done | by intros (? & ? & ?)].
Qed.

Lemma dispatchStep_sendFrame f ts ct m st c :
  dispatchStep f ts ct (m, st) c
  = let r := sendFrame c (eventFrame f ts ct) m in
    if r.1 then
      (r.2, mkStats (S (successCount st)) (failureCount st)
              (failedConnections st) (deadConnections st))
    else
      (r.2, mkStats (successCount st) (S (failureCount st))
              (failedConnections st ++ [c])
              (if hasConnection c r.2 then deadConnections st
               else deadConnections st ++ [c])).
Proof.
  unfold dispatchStep, sendFormDeletedEvent, sendFormUpdateEvent.
  destruct ct; simpl;
    match goal with |- context [sendFrame ?a ?b ?c] =>
      by destruct (sendFrame a b c) as [[] ?] end.
Qed.

Lemma dispatchFold_spec f ts ct ids : ∀ m st,
  let r := foldl (dispatchStep f ts ct) (m, st) ids in
  (∀ k, hasConnection k r.1 = hasConnection k m)
  ∧ deadConnections r.2
    = deadConnections st ++ filter (λ c, hasConnection c m = false) ids
  ∧ (NoDup ids → ∀ k,
       connections r.1 !! k
       = if decide (k ∈ ids)
         then attempted (eventFrame f ts ct) <$> connections m !! k
         else connections m !! k).
Proof.
  induction ids as [|c ids IH]; intros m st; cbn [foldl].
  - split_and!; [done | by rewrite filter_nil, app_nil_r |].
    intros _ k. case_decide as Hk; [by apply not_elem_of_nil in Hk | done].
  - rewrite dispatchStep_sendFrame.
    set (s := sendFrame c (eventFrame f ts ct) m).
    assert (∀ k, hasConnection k s.2 = hasConnection k m) as Hhas
      by (intros k; apply hasConnection_sendFrame).
    assert (∀ st', let r := foldl (dispatchStep f ts ct) (s.2, st') ids in
              (∀ k, hasConnection k r.1 = hasConnection k m)
              ∧ deadConnections r.2
                = deadConnections st' ++ filter (λ c, hasConnection c m = false) ids
              ∧ (NoDup (c :: ids) → ∀ k,
                  connections r.1 !! k
                  = if decide (k ∈ c :: ids)
                    then attempted (eventFrame f ts ct) <$> connections m !! k
                    else connections m !! k)) as Hrest.
    { intros st'. destruct (IH s.2 st') as (H1 & H2 & H3). cbv zeta. split_and!.
      - intros k. by rewrite H1.
      - rewrite H2. f_equal. apply list_filter_iff. intros x. by rewrite Hhas.
      - intros [Hc Hnd]%NoDup_cons k. rewrite (H3 Hnd k).
        subst s. rewrite !sendFrame_connections.
        destruct (decide (k = c)) as [->|Hk].
        + rewrite decide_False by done.
          rewrite decide_True by apply list_elem_of_here. done.
        + destruct (decide (k ∈ ids)) as [Hin|Hin].
          * rewrite decide_True by (by apply list_elem_of_further). done.
          * rewrite decide_False; [done|].
            intros [->|?]%elem_of_cons; done. }
    cbv zeta in Hrest. cbv zeta.
    destruct (s.1) eqn:Hs1.
    + destruct (Hrest (mkStats (S (successCount st)) (failureCount st)
                  (failedConnections st) (deadConnections st))) as (H1 & H2 & H3).
      split_and!; [done | | done].
      rewrite H2. simpl. rewrite filter_cons.
      apply sendFrame_sent in Hs1 as (conn & Hconn & _).
      rewrite decide_False; [done|].
      unfold hasConnection. rewrite Hconn.
      rewrite bool_decide_eq_true_2; [done | by eexists].
    + destruct (Hrest (mkStats (successCount st) (S (failureCount st))
                  (failedConnections st ++ [c])
                  (if hasConnection c s.2 then deadConnections st
                   else deadConnections st ++ [c]))) as (H1 & H2 & H3).
      split_and!; [done | | done].
      rewrite H2. simpl. rewrite Hhas.
      rewrite filter_cons. destruct (hasConnection c m) eqn:Hc.
      * rewrite decide_False by done. done.
      * rewrite decide_True by done. by rewrite <- app_assoc.
Qed.

Lemma dispatchLoop_spec f ts ct ids m :
  let r := dispatchLoop f ts ct ids m in
  (∀ k, hasConnection k r.1 = hasConnection k m)
  ∧ deadConnections r.2 = filter (λ c, hasConnection c m = false) ids
  ∧ (NoDup ids → ∀ k,
       connections r.1 !! k
       = if decide (k ∈ ids)
         then attempted (eventFrame f ts ct) <$> connections m !! k
         else connections m !! k).
Proof. apply (dispatchFold_spec f ts ct ids m (mkStats 0 0 [] [])). Qed.

(** What one call of [sendNotification] changes. *)
Lemma sendNotification_spec f ct d w :
  let w' := sendNotification f ct d w in
  let ids := getConnectionsByForm f (notifier w) in
  clock w' = clock w ∧ timers w' = timers w ∧ nextTimer w' = nextTimer w
  ∧ dispatches w' = dispatches w ++ [mkDispatch (clock w) f ct d]
  ∧ sseManager w' = (dispatchLoop f (clock w) ct ids (sseManager w)).1
  ∧ notifier w'
    = unregisterAll (filter (λ c, hasConnection c (sseManager w) = false) ids)
        (notifier w).
Proof.
  simpl. unfold sendNotification.
  destruct (getConnectionsByForm f (notifier w)) as [|c ids] eqn:Hids.
  - simpl. done.
  - rewrite decide_False by done.
    pose proof (dispatchLoop_spec f (clock w) ct (c :: ids) (sseManager w))
      as (_ & Hdead & _).
    destruct (dispatchLoop f (clock w) ct (c :: ids) (sseManager w)) as [m' st].
    simpl in *. by rewrite Hdead.
Qed.

(** ** Unregistering several connections *)

Lemma pendingNotifications_unregister c n :
  pendingNotifications (unregisterPreviewConnection c n) = pendingNotifications n
  ∧ debounceInterval (unregisterPreviewConnection c n) = debounceInterval n.
Proof.
  unfold unregisterPreviewConnection.
  destruct (connectionForms n !! c) as [f|]; [|done].
  by destruct (truthy_string f).
Qed.

Lemma pendingNotifications_unregisterAll cs : ∀ n,
  pendingNotifications (unregisterAll cs n) = pendingNotifications n
  ∧ debounceInterval (unregisterAll cs n) = debounceInterval n.
Proof.
  induction cs as [|c cs IH]; intros n; simpl; [done|].
  destruct (IH (unregisterPreviewConnection c n)) as [-> ->].
  apply pendingNotifications_unregister.
Qed.

Lemma connectionForms_unregister_inv c n c' :
  watchIndexInv n →
  connectionForms (unregisterPreviewConnection c n) !! c'
  = if decide (c' = c) then None else connectionForms n !! c'.
Proof.
  intros (Hne & _).
  destruct (connectionForms n !! c) as [f|] eqn:Hc.
  - apply (connectionForms_unregister c f); [done | by eapply Hne].
  - rewrite unregister_unwatched by done. case_decide; by subst.
Qed.

Lemma unregisterAll_spec cs : ∀ n,
  watchIndexInv n →
  watchIndexInv (unregisterAll cs n)
  ∧ ∀ c', connectionForms (unregisterAll cs n) !! c'
          = if decide (c' ∈ cs) then None else connectionForms n !! c'.
Proof.
  induction cs as [|c cs IH]; intros n Hinv.
  - split; [done|]. intros c'.
    case_decide as Hc; [by apply not_elem_of_nil in Hc | done].
  - change (unregisterAll (c :: cs) n)
      with (unregisterAll cs (unregisterPreviewConnection c n)).
    destruct (IH (unregisterPreviewConnection c n)) as [Hinv' Hcf];
      [by apply watchIndexInv_unregister|].
    split; [done|]. intros c'. rewrite Hcf, connectionForms_unregister_inv by done.
    destruct (decide (c' = c)) as [->|Hc].
    + rewrite (decide_True (P := c ∈ c :: cs)) by apply list_elem_of_here.
      by case_decide.
    + destruct (decide (c' ∈ cs)) as [Hin|Hin].
      * by rewrite decide_True by (by apply list_elem_of_further).
      * rewrite decide_False; [done|]. intros [->|?]%elem_of_cons; done.
Qed.

Lemma deleted_cleanup_unregisterAll m ids : ∀ n,
  foldl (λ acc connectionId,
           match getConnectionInfo connectionId m with
           | Some _ => unregisterPreviewConnection connectionId acc
           | None => acc
           end) n ids
  = unregisterAll (filter (λ c, hasConnection c m = true) ids) n.
Proof.
  induction ids as [|c ids IH]; intros n; simpl; [done|].
  rewrite IH, filter_cons. unfold hasConnection, getConnectionInfo.
  destruct (connections m !! c) as [conn|] eqn:Hc.
  - rewrite decide_True; [done|]. apply bool_decide_eq_true_2. by eexists.
  - rewrite decide_False; [done|]. rewrite bool_decide_eq_false_2; [done|].
    by intros [? ?].
Qed.

(** ** Dispatch and the reaping of dead connections *)

Lemma written_attempted fr conn :
  written (res (attempted fr conn))
  = if decide (writes (res conn) = WriteThrows) then written (res conn)
    else written (res conn) ++ [fr].
Proof.
  unfold attempted, res_write. destruct conn as [i r ? ? ?]. simpl.
  by destruct (writes r).
Qed.

(** C4 (as stated, refuted): the write on c1 throws, c1 being still in the
    registry; after the dispatch c1 is still in both indices. *)
Lemma failed_write_keeps_registration :
  let w := streamFails "c1" WriteThrows
             (acceptPreview "c2" "f1" (mkResponse WriteOk [])
                (acceptPreview "c1" "f1" (mkResponse WriteOk [])
                   (newWorld 500 300000))) in
  let w' := sendNotification "f1" updated None w in
  (sendFormUpdateEvent "c1" "f1" (clock w) updated (sseManager w)).1 = false
  ∧ getFormByConnection "c1" (notifier w') = Some "f1"
  ∧ "c1" ∈ getConnectionsByForm "f1" (notifier w').
Proof.
  simpl. split_and!.
  - vm_compute. reflexivity.
  - vm_compute. reflexivity.
  - vm_compute. apply list_elem_of_here.
Qed.

(** C4 (amended): in a dispatch over the watchers of a form, a watcher that
    is no longer in the registry is removed from both indices after the
    loop; a watcher still in the registry stays registered even when its
    write fails; and every watcher present in the registry gets one write
    attempt of the event, which its stream records unless that write throws. *)
Theorem dispatch_reaps_dead_watchers (w : World) (f : string) (ct : ChangeType)
    (d : option FormioForm) (c1 : string) :
  watchIndexInv (notifier w) →
  c1 ∈ getConnectionsByForm f (notifier w) →
  let w' := sendNotification f ct d w in
  (hasConnection c1 (sseManager w) = false →
     getFormByConnection c1 (notifier w') = None
     ∧ ∀ f', c1 ∉ getConnectionsByForm f' (notifier w'))
  ∧ (hasConnection c1 (sseManager w) = true →
       getFormByConnection c1 (notifier w') = Some f
       ∧ c1 ∈ getConnectionsByForm f (notifier w'))
  ∧ (∀ c2 conn,
       c2 ∈ getConnectionsByForm f (notifier w) →
       connections (sseManager w) !! c2 = Some conn →
       ∃ conn',
         connections (sseManager w') !! c2 = Some conn'
         ∧ written (res conn')
           = if decide (writes (res conn) = WriteThrows) then written (res conn)
             else written (res conn) ++ [eventFrame f (clock w) ct]).
Proof.
  intros Hinv Hc1 w'.
  destruct (sendNotification_spec f ct d w) as (_ & _ & _ & _ & Hsse & Hn).
  fold w' in Hsse, Hn.
  destruct (unregisterAll_spec
              (filter (λ c, hasConnection c (sseManager w) = false)
                 (getConnectionsByForm f (notifier w)))
              (notifier w) Hinv) as [Hinv' Hcf].
  rewrite <- Hn in Hinv', Hcf.
  assert (connectionForms (notifier w) !! c1 = Some f) as Hreg
    by (destruct Hinv as (_ & Hiff & _); by apply Hiff).
  unfold getFormByConnection. split_and!.
  - intros Hdead. rewrite Hcf, decide_True by (by apply list_elem_of_filter).
    split; [done|]. intros f' Hin.
    destruct Hinv' as (_ & Hiff' & _). apply Hiff' in Hin.
    rewrite Hcf, decide_True in Hin by (by apply list_elem_of_filter). done.
  - intros Hlive.
    assert (connectionForms (notifier w') !! c1 = Some f) as Hreg'.
    { rewrite Hcf, decide_False; [done|].
      intros [Habs _]%list_elem_of_filter. congruence. }
    split; [done|]. destruct Hinv' as (_ & Hiff' & _). by apply Hiff'.
  - intros c2 conn Hc2 Hconn.
    destruct (dispatchLoop_spec f (clock w) ct
                (getConnectionsByForm f (notifier w)) (sseManager w))
      as (_ & _ & Hwr).
    rewrite <- Hsse in Hwr.
    specialize (Hwr (proj2 (proj2 (proj2 Hinv)) f) c2).
    rewrite decide_True, Hconn in Hwr by done.
    eexists. split; [exact Hwr|]. apply written_attempted.
Qed.

Lemma dispatch_reaps_dead_watchers_witness :
  let w := withSSE (mkSSEManager ∅ false)
             (acceptPreview "c1" "f1" (mkResponse WriteOk [])
                (newWorld 500 300000)) in
  let w' := sendNotification "f1" updated None w in
  getFormByConnection "c1" (notifier w') = None
  ∧ ∀ f', "c1" ∉ getConnectionsByForm f' (notifier w').
Proof.
  intros w w'.
  assert (watchIndexInv (notifier w)) as Hinv.
  { apply watchIndexInv_register; [discriminate | apply watchIndexInv_new]. }
  assert ("c1" ∈ getConnectionsByForm "f1" (notifier w)) as Hc1
    by (vm_compute; apply list_elem_of_here).
  assert (hasConnection "c1" (sseManager w) = false) as Hdead
    by (vm_compute; reflexivity).
  exact (proj1 (dispatch_reaps_dead_watchers w "f1" updated None "c1" Hinv Hc1) Hdead).
Defined.

(** ** Deletion and creation events *)

Lemma watchIndexInv_withPending p n :
  watchIndexInv n → watchIndexInv (withPending p n).
Proof. done. Qed.

(** What one call of [notifyFormDeleted] changes. *)
Lemma notifyFormDeleted_spec f w :
  let w1 := sendNotification f deleted None w in
  let w' := notifyFormDeleted f w in
  clock w' = clock w
  ∧ dispatches w' = dispatches w ++ [mkDispatch (clock w) f deleted None]
  ∧ sseManager w' = sseManager w1
  ∧ timers w'
    = match pendingNotifications (notifier w) !! f with
      | Some h => delete h (timers w)
      | None => timers w
      end
  ∧ nextTimer w' = nextTimer w
  ∧ pendingNotifications (notifier w') = delete f (pendingNotifications (notifier w))
  ∧ ∃ p, notifier w'
         = unregisterAll
             (filter (λ c, hasConnection c (sseManager w1) = true)
                (getConnectionsByForm f (notifier w1)))
             (withPending p (notifier w1)).
Proof.
  intros w1 w'. subst w'. unfold notifyFormDeleted. fold w1.
  destruct (sendNotification_spec f deleted None w)
    as (Hclk & Htm & Hnt & Hdis & _ & Hn).
  fold w1 in Hclk, Htm, Hnt, Hdis, Hn.
  assert (pendingNotifications (notifier w1) = pendingNotifications (notifier w))
    as Hpend by (rewrite Hn; apply pendingNotifications_unregisterAll).
  rewrite deleted_cleanup_unregisterAll.
  rewrite Hpend.
  destruct (pendingNotifications (notifier w) !! f) as [h|] eqn:Hf; simpl.
  - rewrite (proj1 (pendingNotifications_unregisterAll _ _)). simpl.
    rewrite Hpend, Hclk, Hdis, Htm, Hnt. split_and!; try done. by eexists.
  - rewrite (proj1 (pendingNotifications_unregisterAll _ _)).
    rewrite Hpend, Hclk, Hdis, Htm, Hnt. split_and!; try done.
    + symmetry. by apply delete_id.
    + exists (pendingNotifications (notifier w1)).
      by destruct (notifier w1).
Qed.

(** C3 (as stated, refuted): an open, healthy connection watching the deleted
    form is still in the registry after [notifyFormDeleted]. *)
Lemma deleted_form_connection_still_in_registry :
  let w := acceptPreview "c1" "f1" (mkResponse WriteOk [])
             (newWorld 500 300000) in
  let w' := notifyFormDeleted "f1" w in
  "c1" ∈ getConnectionsByForm "f1" (notifier w)
  ∧ hasConnection "c1" (sseManager w') = true.
Proof.
  simpl. split.
  - vm_compute. apply list_elem_of_here.
  - vm_compute. reflexivity.
Qed.

(** C3 (amended): when the indices are consistent, after notifyFormDeleted(f)
    getConnectionsByForm(f) is the empty list and every connection that was
    watching f is unregistered from the router (getFormByConnection is
    undefined for it); the call removes nothing from the registry:
    hasConnection gives for each of them what it gave before the call. *)
Theorem deleted_form_unregisters_watchers (w : World) (f : string) :
  watchIndexInv (notifier w) →
  let w' := notifyFormDeleted f w in
  getConnectionsByForm f (notifier w') = []
  ∧ ∀ c, c ∈ getConnectionsByForm f (notifier w) →
         getFormByConnection c (notifier w') = None
         ∧ hasConnection c (sseManager w') = hasConnection c (sseManager w).
Proof.
  intros Hinv w'.
  destruct (notifyFormDeleted_spec f w) as (_ & _ & Hsse & _ & _ & _ & p & Hn).
  fold w' in Hsse, Hn.
  destruct (sendNotification_spec f deleted None w) as (_ & _ & _ & _ & Hsse1 & Hn1).
  set (w1 := sendNotification f deleted None w) in *.
  set (ws := getConnectionsByForm f (notifier w)) in *.
  destruct (dispatchLoop_spec f (clock w) deleted ws (sseManager w)) as (Hhas & _).
  rewrite <- Hsse1 in Hhas.
  destruct (unregisterAll_spec
              (filter (λ c, hasConnection c (sseManager w) = false) ws)
              (notifier w) Hinv) as [Hinv1 Hcf1].
  rewrite <- Hn1 in Hinv1, Hcf1.
  destruct (unregisterAll_spec
              (filter (λ c, hasConnection c (sseManager w1) = true)
                 (getConnectionsByForm f (notifier w1)))
              (withPending p (notifier w1))
              (watchIndexInv_withPending p _ Hinv1)) as [Hinv' Hcf'].
  rewrite <- Hn in Hinv', Hcf'.
  assert (∀ c, c ∈ ws → connectionForms (notifier w') !! c = None) as Hgone.
  { intros c Hc. rewrite Hcf'. case_decide as Hin; [done|]. simpl.
    rewrite Hcf1. case_decide as Hdead; [done|]. exfalso. apply Hin.
    apply list_elem_of_filter. rewrite Hhas.
    assert (hasConnection c (sseManager w) = true) as Hlive.
    { destruct (hasConnection c (sseManager w)) eqn:E; [done|].
      exfalso. apply Hdead. by apply list_elem_of_filter. }
    split; [done|].
    destruct Hinv1 as (_ & Hiff1 & _). apply Hiff1.
    rewrite Hcf1, decide_False by done.
    destruct Hinv as (_ & Hiff & _). by apply Hiff. }
  split.
  - destruct (getConnectionsByForm f (notifier w')) as [|x l] eqn:Hl; [done|].
    exfalso.
    assert (x ∈ getConnectionsByForm f (notifier w')) as Hx
      by (rewrite Hl; apply list_elem_of_here).
    destruct Hinv' as (_ & Hiff' & _). apply Hiff' in Hx.
    assert (x ∈ ws) as Hxws.
    { rewrite Hcf' in Hx. case_decide; [done|]. simpl in Hx.
      rewrite Hcf1 in Hx. case_decide; [done|].
      destruct Hinv as (_ & Hiff & _). by apply Hiff. }
    rewrite (Hgone x Hxws) in Hx. done.
  - intros c Hc. split; [by apply Hgone|]. by rewrite Hsse, Hhas.
Qed.

Lemma deleted_form_unregisters_watchers_witness :
  let w := acceptPreview "c2" "f1" (mkResponse WriteOk [])
             (acceptPreview "c1" "f1" (mkResponse WriteOk [])
                (newWorld 500 300000)) in
  getConnectionsByForm "f1" (notifier (notifyFormDeleted "f1" w)) = [].
Proof.
  intros w.
  assert (watchIndexInv (notifier w)) as Hinv.
  { apply watchIndexInv_register; [discriminate|].
    apply watchIndexInv_register; [discriminate | apply watchIndexInv_new]. }
  exact (proj1 (deleted_form_unregisters_watchers w "f1" Hinv)).
Defined.

(** C5 (as stated, refuted): [notifyFormCreated] leaves the pending debounce
    timer of the form armed; it fires later as a second dispatch. *)
Lemma created_keeps_pending_timer :
  let w := notifyFormUpdated "f1" None (newWorld 500 300000) in
  let w' := notifyFormCreated "f1" None w in
  pendingNotifications (notifier w) !! "f1" = Some 0%nat
  ∧ pendingNotifications (notifier w') !! "f1" = Some 0%nat
  ∧ timers w' !! 0%nat = Some (mkTimer 500 "f1" updated None)
  ∧ dispatchChange <$> dispatches (advance 500 w') = [created; updated].
Proof. simpl. split_and!; vm_compute; reflexivity. Qed.

(** C5 (amended): every call of notifyFormCreated(f, data) and of
    notifyFormDeleted(f) invokes the dispatch exactly once, during the call
    and without arming a timer; notifyFormDeleted also cancels the pending
    debounce timer of f and empties its slot, whereas notifyFormCreated
    leaves the timers and the pending slots as they are. *)
Theorem created_deleted_dispatch_once (w : World) (f : string)
    (d : option FormioForm) :
  (let w' := notifyFormCreated f d w in
   dispatches w' = dispatches w ++ [mkDispatch (clock w) f created d]
   ∧ timers w' = timers w
   ∧ pendingNotifications (notifier w') = pendingNotifications (notifier w))
  ∧ (let w' := notifyFormDeleted f w in
     dispatches w' = dispatches w ++ [mkDispatch (clock w) f deleted None]
     ∧ timers w'
       = match pendingNotifications (notifier w) !! f with
         | Some h => delete h (timers w)
         | None => timers w
         end
     ∧ pendingNotifications (notifier w') !! f = None
     ∧ ∀ g, g ≠ f → pendingNotifications (notifier w') !! g
                     = pendingNotifications (notifier w) !! g).
Proof.
  split.
  - destruct (sendNotification_spec f created d w) as (_ & Htm & _ & Hdis & _ & Hn).
    unfold notifyFormCreated. split_and!; [done | done |].
    rewrite Hn. apply pendingNotifications_unregisterAll.
  - destruct (notifyFormDeleted_spec f w) as (_ & Hdis & _ & Htm & _ & Hp & _).
    split_and!; [done | done | |].
    + rewrite Hp. apply lookup_delete_eq.
    + intros g Hg. rewrite Hp. by apply lookup_delete_ne.
Qed.

(** ** Timers and debouncing *)

Lemma notifyFormUpdated_spec f p w :
  let w' := notifyFormUpdated f p w in
  clock w' = clock w
  ∧ dispatches w' = dispatches w
  ∧ nextTimer w' = S (nextTimer w)
  ∧ timers w'
    = <[nextTimer w := mkTimer (clock w + debounceInterval (notifier w)) f updated p]>
        (match pendingNotifications (notifier w) !! f with
         | Some h => delete h (timers w)
         | None => timers w
         end)
  ∧ pendingNotifications (notifier w')
    = <[f := nextTimer w]> (pendingNotifications (notifier w))
  ∧ debounceInterval (notifier w') = debounceInterval (notifier w).
Proof.
  unfold notifyFormUpdated, debounceNotification.
  destruct (pendingNotifications (notifier w) !! f) as [h|]; simpl; done.
Qed.

Lemma timerCallback_spec tm w :
  let w' := timerCallback tm w in
  clock w' = clock w ∧ timers w' = timers w ∧ nextTimer w' = nextTimer w
  ∧ dispatches w'
    = dispatches w ++ [mkDispatch (clock w) (timerForm tm) (timerChange tm) (timerData tm)]
  ∧ pendingNotifications (notifier w')
    = delete (timerForm tm) (pendingNotifications (notifier w))
  ∧ debounceInterval (notifier w') = debounceInterval (notifier w).
Proof.
  unfold timerCallback.
  destruct (sendNotification_spec (timerForm tm) (timerChange tm) (timerData tm) w)
    as (Hclk & Htm & Hnt & Hdis & _ & Hn).
  simpl. rewrite Hn.
  destruct (pendingNotifications_unregisterAll
              (filter (λ c, hasConnection c (sseManager w) = false)
                 (getConnectionsByForm (timerForm tm) (notifier w)))
              (notifier w)) as [-> ->].
  done.
Qed.

Lemma fireTimer_armed w p tm :
  timers w !! p.1 = Some tm →
  let w' := fireTimer w p in
  clock w' = Z.max (clock w) (due tm)
  ∧ timers w' = delete p.1 (timers w)
  ∧ nextTimer w' = nextTimer w
  ∧ dispatches w'
    = dispatches w
      ++ [mkDispatch (Z.max (clock w) (due tm)) (timerForm tm) (timerChange tm)
            (timerData tm)]
  ∧ pendingNotifications (notifier w')
    = delete (timerForm tm) (pendingNotifications (notifier w))
  ∧ debounceInterval (notifier w') = debounceInterval (notifier w).
Proof.
  intros Harmed. unfold fireTimer. rewrite Harmed.
  pose proof (timerCallback_spec tm
                (mkWorld (Z.max (clock w) (due tm)) (delete p.1 (timers w))
                   (nextTimer w) (sseManager w) (notifier w) (dispatches w)))
    as Hcb.
  simpl in Hcb. exact Hcb.
Qed.

Lemma fireTimer_cleared w p : timers w !! p.1 = None → fireTimer w p = w.
Proof. intros Hnone. unfold fireTimer. by rewrite Hnone. Qed.

Lemma foldl_invariant {A B} (P : A → Prop) (step : A → B → A) (l : list B) a :
  (∀ x b, b ∈ l → P x → P (step x b)) → P a → P (foldl step a l).
Proof.
  revert a. induction l as [|b l IH]; intros a Hstep Ha; [done|]. simpl.
  apply IH.
  - intros x b' Hb'. apply Hstep. by apply list_elem_of_further.
  - apply Hstep; [apply list_elem_of_here | done].
Qed.



(** The timer table invariant holds initially and is kept by every
    operation of the router and by the event loop. *)

Lemma timersInv_new d i : timersInv (newWorld d i).
Proof.
  split; simpl.
  - intros h tm. by rewrite lookup_empty.
  - intros h [? Hh]. by rewrite lookup_empty in Hh.
Qed.

Lemma timersInv_fireTimer w p : timersInv w → timersInv (fireTimer w p).
Proof.
  intros [Hpend Hfresh].
  destruct (timers w !! p.1) as [tm|] eqn:Harmed;
    [|by rewrite fireTimer_cleared].
  destruct (fireTimer_armed w p tm Harmed) as (_ & Htm & Hnt & _ & Hp & _).
  split.
  - intros h tm'. rewrite Htm, Hp. intros Hh.
    apply lookup_delete_Some in Hh as [Hne Hh].
    rewrite lookup_delete_ne; [by apply Hpend|].
    intros Hform. apply Hne.
    apply Hpend in Harmed, Hh. rewrite Hform in Harmed. congruence.
  - intros h. rewrite Htm, Hnt. intros [tm' Hh].
    apply lookup_delete_Some in Hh as [_ Hh]. apply Hfresh. by eexists.
Qed.

Lemma timersInv_advance t w : timersInv w → timersInv (advance t w).
Proof.
  intros Hinv. unfold advance.
  pose proof (foldl_invariant timersInv fireTimer (dueTimers t w) w
                (λ x b _ Hx, timersInv_fireTimer x b Hx) Hinv) as Hfold.
  destruct Hfold as [H1 H2]. split; simpl; done.
Qed.

Lemma timersInv_notifyFormUpdated f p w :
  timersInv w → timersInv (notifyFormUpdated f p w).
Proof.
  intros [Hpend Hfresh].
  destruct (notifyFormUpdated_spec f p w) as (_ & _ & Hnt & Htm & Hp & _).
  assert (timers w !! nextTimer w = None) as Hnew.
  { destruct (timers w !! nextTimer w) eqn:E; [|done].
    assert (nextTimer w < nextTimer w)%nat by (apply Hfresh; by eexists). lia. }
  assert (∀ h tm,
            (match pendingNotifications (notifier w) !! f with
             | Some h0 => delete h0 (timers w)
             | None => timers w
             end) !! h = Some tm →
            timers w !! h = Some tm ∧ timerForm tm ≠ f) as Hbase.
  { intros h tm Hh.
    destruct (pendingNotifications (notifier w) !! f) as [h0|] eqn:Hf.
    - apply lookup_delete_Some in Hh as [Hne Hh]. split; [done|].
      intros Hform. apply Hpend in Hh. rewrite Hform in Hh. congruence.
    - split; [done|]. intros Hform. apply Hpend in Hh. rewrite Hform in Hh.
      congruence. }
  split.
  - intros h tm. rewrite Htm, Hp. intros Hh.
    apply lookup_insert_Some in Hh as [[<- <-]|[Hne Hh]].
    + simpl. apply lookup_insert_eq.
    + apply Hbase in Hh as [Hh Hform].
      rewrite lookup_insert_ne by done. by apply Hpend.
  - intros h. rewrite Htm, Hnt. intros [tm Hh].
    apply lookup_insert_Some in Hh as [[<- <-]|[Hne Hh]]; [lia|].
    apply Hbase in Hh as [Hh _].
    assert (h < nextTimer w)%nat by (apply Hfresh; by eexists). lia.
Qed.

Lemma timersInv_notifyFormCreated f d w :
  timersInv w → timersInv (notifyFormCreated f d w).
Proof.
  intros [Hpend Hfresh]. unfold notifyFormCreated.
  destruct (sendNotification_spec f created d w) as (_ & Htm & Hnt & _ & _ & Hn).
  split.
  - intros h tm. rewrite Htm, Hn.
    rewrite (proj1 (pendingNotifications_unregisterAll _ _)). apply Hpend.
  - intros h. rewrite Htm, Hnt. apply Hfresh.
Qed.

Lemma timersInv_notifyFormDeleted f w :
  timersInv w → timersInv (notifyFormDeleted f w).
Proof.
  intros [Hpend Hfresh].
  destruct (notifyFormDeleted_spec f w) as (_ & _ & _ & Htm & Hnt & Hp & _).
  assert (∀ h tm, timers (notifyFormDeleted f w) !! h = Some tm →
                  timers w !! h = Some tm ∧ timerForm tm ≠ f) as Hbase.
  { intros h tm. rewrite Htm. intros Hh.
    destruct (pendingNotifications (notifier w) !! f) as [h0|] eqn:Hf.
    - apply lookup_delete_Some in Hh as [Hne Hh]. split; [done|].
      intros Hform. apply Hpend in Hh. rewrite Hform in Hh. congruence.
    - split; [done|]. intros Hform. apply Hpend in Hh. rewrite Hform in Hh.
      congruence. }
  split.
  - intros h tm Hh. apply Hbase in Hh as [Hh Hform].
    rewrite Hp, lookup_delete_ne by done. by apply Hpend.
  - intros h [tm Hh]. apply Hbase in Hh as [Hh _]. rewrite Hnt.
    apply Hfresh. by eexists.
Qed.












(** Scenario 3, evaluated: three updates within 100ms, debounce 500ms. *)
Example ex_three_updates_one_dispatch :
  dispatches
    (advance 1000
       (burst "f1" [(50, None); (100, None)]
          (notifyFormUpdated "f1" None (newWorld 500 300000))))
  = [mkDispatch 600 "f1" updated None].
Proof. vm_compute. reflexivity. Qed.

(** ** The invariants hold in every reachable state *)

Lemma pendingNotifications_register c f now n :
  pendingNotifications (registerPreviewConnection c f now n) = pendingNotifications n.
Proof.
  unfold registerPreviewConnection, insertWatch.
  destruct (connectionForms n !! c) as [e|]; [|done].
  destruct (truthy_string e); [|done].
  case_decide; [|done]. simpl. apply pendingNotifications_unregister.
Qed.

Lemma watchIndexInv_sendNotification f ct d w :
  watchIndexInv (notifier w) → watchIndexInv (notifier (sendNotification f ct d w)).
Proof.
  intros Hinv.
  destruct (sendNotification_spec f ct d w) as (_ & _ & _ & _ & _ & ->).
  by apply unregisterAll_spec.
Qed.

Lemma watchIndexInv_fireTimer w p :
  watchIndexInv (notifier w) → watchIndexInv (notifier (fireTimer w p)).
Proof.
  intros Hinv. unfold fireTimer.
  destruct (timers w !! p.1) as [tm|]; [|done].
  unfold timerCallback. simpl. apply watchIndexInv_withPending.
  by apply (watchIndexInv_sendNotification _ _ _
              (mkWorld (Z.max (clock w) (due tm)) (delete p.1 (timers w))
                 (nextTimer w) (sseManager w) (notifier w) (dispatches w))).
Qed.

Lemma watchIndexInv_advance t w :
  watchIndexInv (notifier w) → watchIndexInv (notifier (advance t w)).
Proof.
  intros Hinv. unfold advance. simpl.
  apply (foldl_invariant (λ x, watchIndexInv (notifier x))); [|done].
  intros x p _. apply watchIndexInv_fireTimer.
Qed.

Lemma watchIndexInv_notifyFormUpdated f d w :
  watchIndexInv (notifier w) → watchIndexInv (notifier (notifyFormUpdated f d w)).
Proof.
  intros Hinv. unfold notifyFormUpdated, debounceNotification.
  destruct (pendingNotifications (notifier w) !! f); simpl;
    by apply watchIndexInv_withPending.
Qed.

Lemma watchIndexInv_notifyFormDeleted f w :
  watchIndexInv (notifier w) → watchIndexInv (notifier (notifyFormDeleted f w)).
Proof.
  intros Hinv.
  destruct (notifyFormDeleted_spec f w) as (_ & _ & _ & _ & _ & _ & p & ->).
  apply unregisterAll_spec, watchIndexInv_withPending.
  by apply watchIndexInv_sendNotification.
Qed.

Lemma timersInv_router n' w :
  pendingNotifications n' = pendingNotifications (notifier w) →
  timersInv w → timersInv (withNotifier n' w).
Proof. intros Hp [H1 H2]. split; simpl; [by rewrite Hp | done]. Qed.

Lemma timersInv_registry m w : timersInv w → timersInv (withSSE m w).
Proof. intros [H1 H2]. split; done. Qed.

Theorem reachable_invariants w :
  Reachable w → watchIndexInv (notifier w) ∧ timersInv w.
Proof.
  induction 1 as [d i|w c f r _ [IHn IHt] Hf|w c _ [IHn IHt]|w c _ [IHn IHt]
                  |w c b _ [IHn IHt]|w f d _ [IHn IHt]|w f d _ [IHn IHt]
                  |w f _ [IHn IHt]|w t _ [IHn IHt]].
  - split; [apply watchIndexInv_new | apply timersInv_new].
  - split.
    + by apply watchIndexInv_register.
    + apply timersInv_router; [apply pendingNotifications_register|].
      by apply timersInv_registry.
  - split.
    + by apply watchIndexInv_unregister.
    + apply timersInv_router; [apply pendingNotifications_unregister|].
      by apply timersInv_registry.
  - split; [done | by apply timersInv_registry].
  - split; [done | by apply timersInv_registry].
  - split; [by apply watchIndexInv_sendNotification
           | by apply timersInv_notifyFormCreated].
  - split; [by apply watchIndexInv_notifyFormUpdated
           | by apply timersInv_notifyFormUpdated].
  - split; [by apply watchIndexInv_notifyFormDeleted
           | by apply timersInv_notifyFormDeleted].
  - split; [by apply watchIndexInv_advance | by apply timersInv_advance].
Qed.

(** ** The RPC bridge *)

(** C7 (as stated, refuted): the handler rejects with a value that is not an
    [Error] instance (the API client rejects with a plain object carrying a
    [message]); the response does not carry that message. *)
Lemma non_error_rejection_message_dropped :
  let t := registerHandler "tools/call"
             (λ _, throw (OtherValue (Some "Request failed with status code 404")))
             (mkTransport (S := unit) ∅) in
  handleRequestSync t (mkMessage (Some (IdNumber 1)) (Some "tools/call") None) tt
  = (Returns (mkRpcResponse (Some (IdNumber 1)) (ErrorBody (-32603) "Internal error")),
     tt)
  ∧ "Internal error" ≠ "Request failed with status code 404".
Proof. simpl. split; [vm_compute; reflexivity | discriminate]. Qed.

(** C7 (amended): handleRequestSync always returns a response and never
    throws; for a method without a registered handler the response is the
    error -32601 with the request's id; when the handler throws, it is the
    error -32603, carrying the thrown message if the thrown value is an
    Error instance and the fixed text "Internal error" otherwise; when the
    handler returns, it is the handler's result. *)
Theorem handleRequestSync_always_responds {S} (t : HttpTransport S)
    (message : JSONRPCMessage) (s : S) :
  (∃ r s', handleRequestSync t message s = (Returns r, s'))
  ∧ (∀ method,
       msg_method message = Some method →
       messageHandlers t !! method = None →
       handleRequestSync t message s
       = (Returns (mkRpcResponse (msg_id message)
                     (ErrorBody (-32601) ("Method not found: " +:+ method))), s))
  ∧ (∀ method handler,
       msg_method message = Some method →
       messageHandlers t !! method = Some handler →
       handleRequestSync t message s
       = match handler message s with
         | (Returns r, s') => (Returns r, s')
         | (Throws (ErrorInstance thrownMessage), s') =>
           (Returns (mkRpcResponse (Some (idOrNull (msg_id message)))
                       (ErrorBody (-32603) thrownMessage)), s')
         | (Throws (OtherValue _), s') =>
           (Returns (mkRpcResponse (Some (idOrNull (msg_id message)))
                       (ErrorBody (-32603) "Internal error")), s')
         end).
Proof.
  unfold handleRequestSync, tryCatch, throw, ret. split_and!.
  - destruct (msg_method message) as [method|]; [|by eexists _, _].
    destruct (messageHandlers t !! method) as [handler|]; [|by eexists _, _].
    destruct (handler message s) as [[r|e] s']; by eexists _, _.
  - intros method Hm Hh. rewrite Hm.
    destruct (messageHandlers t !! method); [discriminate Hh | done].
  - intros method handler Hm Hh. rewrite Hm.
    destruct (messageHandlers t !! method) as [h|]; [|discriminate Hh].
    injection Hh as ->.
    by destruct (handler message s) as [[r|[m|m]] s'].
Qed.

Lemma handleRequestSync_always_responds_witness :
  handleRequestSync (mkTransport (S := unit) ∅)
    (mkMessage (Some (IdNumber 1)) (Some "unknown_method") None) tt
  = (Returns (mkRpcResponse (Some (IdNumber 1))
                (ErrorBody (-32601) "Method not found: unknown_method")), tt).
Proof.
  exact (proj1 (proj2 (handleRequestSync_always_responds (mkTransport (S := unit) ∅)
                         (mkMessage (Some (IdNumber 1)) (Some "unknown_method") None) tt))
           "unknown_method" eq_refl (lookup_empty _)).
Defined.

(** C10: on the error path of handleRequestSync (missing method field, or
    a handler that throws) the response id is the message's id when that id
    is truthy and null otherwise; in particular a request with id 0 whose
    handler throws gets an error response with id null, not 0. *)
Theorem error_response_id_truthy_or_null {S} (t : HttpTransport S)
    (message : JSONRPCMessage) (s : S) :
  takesErrorPath t message s →
  (∃ text s',
     handleRequestSync t message s
     = (Returns (mkRpcResponse (Some (idOrNull (msg_id message)))
                   (ErrorBody (-32603) text)), s'))
  ∧ (∀ v, msg_id message = Some v →
          idOrNull (msg_id message) = if truthy_id v then v else IdNull)
  ∧ (msg_id message = None → idOrNull (msg_id message) = IdNull)
  ∧ (msg_id message = Some (IdNumber 0) → idOrNull (msg_id message) = IdNull).
Proof.
  intros Herr. split_and!.
  - unfold handleRequestSync, tryCatch, throw, ret.
    destruct Herr as [->|(method & handler & e & s' & Hm & Hh & He)];
      [by eexists _, _|].
    rewrite Hm.
    destruct (messageHandlers t !! method) as [h|]; [|discriminate Hh].
    injection Hh as ->. rewrite He. by eexists _, _.
  - by intros v ->.
  - by intros ->.
  - by intros ->.
Qed.

Lemma error_response_id_truthy_or_null_witness :
  let t := registerHandler "tools/call" (λ _, throw (ErrorInstance "Missing arguments"))
             (mkTransport (S := unit) ∅) in
  let message := mkMessage (Some (IdNumber 0)) (Some "tools/call") None in
  ∃ text s',
    handleRequestSync t message tt
    = (Returns (mkRpcResponse (Some IdNull) (ErrorBody (-32603) text)), s').
Proof.
  intros t message.
  assert (takesErrorPath t message tt) as Herr.
  { right. exists "tools/call", (λ _, throw (ErrorInstance "Missing arguments")),
      (ErrorInstance "Missing arguments"), tt.
    split_and!; [done | apply lookup_insert_eq | done]. }
  exact (proj1 (error_response_id_truthy_or_null t message tt Herr)).
Defined.

(** ** The ownership gate of the mutation tools *)

Lemma isMCPForm_owned form :
  truthy_bool (isMCPForm form) = true ↔ ownedByMCP form.
Proof.
  unfold isMCPForm, ownedByMCP, truthy_bool, MCP_PATH_PREFIX, MCP_TITLE_PREFIX.
  destruct (path form) as [p|], (title form) as [t|]; simpl.
  - destruct (startsWith "mcp-" p) eqn:Hp; simpl.
    + split; [|done]. intros _. right. by exists p.
    + split.
      * intros Ht. left. by exists t.
      * intros [(t' & [= <-] & Ht)|(p' & [= <-] & Hp')]; congruence.
  - destruct (startsWith "mcp-" p) eqn:Hp; simpl.
    + split; [|done]. intros _. right. by exists p.
    + split; [done|].
      intros [(t' & Habs & _)|(p' & [= <-] & Hp')]; congruence.
  - split.
    + intros Ht. left. by exists t.
    + intros [(t' & [= <-] & Ht)|(p' & Habs & _)]; congruence.
  - split; [done|]. intros [(t' & Habs & _)|(p' & Habs & _)]; congruence.
Qed.

Lemma validateMCPOwnership_owned form operation :
  validateMCPOwnership form operation = Returns tt ↔ ownedByMCP form.
Proof.
  rewrite <- isMCPForm_owned. unfold validateMCPOwnership.
  destruct (truthy_bool (isMCPForm form)); simpl; split; done.
Qed.

Lemma validateMCPOwnership_not_owned form operation :
  ¬ ownedByMCP form → threw (validateMCPOwnership form operation) = true.
Proof.
  rewrite <- isMCPForm_owned. unfold validateMCPOwnership.
  destruct (truthy_bool (isMCPForm form)); simpl; [by intros [] | done].
Qed.

(** C8: given the form fetched for the call, update_form and delete_form
    throw without calling the forms API's update / delete operation iff that
    form is not owned (its title does not start with "[MCP] " and its path
    does not start with "mcp-"); when it is owned, the operation is called
    with the tool's arguments and its outcome is the tool's outcome. *)
Theorem mutation_gated_by_ownership {S} (toLowerCase : string → string)
    (client : FormioClient S) (args : ToolArgs) (s s1 : S)
    (existingForm : FormioForm) :
  getForm client (arg_formId args) s = (Returns existingForm, s1) →
  let upd := executeToolCall toLowerCase (recording client) update_form args (s, []) in
  let del := executeToolCall toLowerCase (recording client) delete_form args (s, []) in
  ((threw upd.1 = true ∧ existsb isUpdateCall upd.2.2 = false)
     ↔ ¬ ownedByMCP existingForm)
  ∧ ((threw del.1 = true ∧ existsb isDeleteCall del.2.2 = false)
       ↔ ¬ ownedByMCP existingForm)
  ∧ (ownedByMCP existingForm →
       upd = (mapOutcome FormUpdated
                (updateForm client (arg_formId args) (arg_updates args) s1).1,
              ((updateForm client (arg_formId args) (arg_updates args) s1).2,
               [CallGetForm (arg_formId args);
                CallUpdateForm (arg_formId args) (arg_updates args)]))
       ∧ del = (mapOutcome (λ _, FormDeleted (arg_formId args))
                  (deleteForm client (arg_formId args) s1).1,
                ((deleteForm client (arg_formId args) s1).2,
                 [CallGetForm (arg_formId args);
                  CallDeleteForm (arg_formId args)]))).
Proof.
  intros Hget upd del. subst upd del.
  unfold executeToolCall, bind, lift, ret, recording, traced. simpl.
  rewrite Hget. simpl.
  pose proof (validateMCPOwnership_owned existingForm "update") as Hu.
  pose proof (validateMCPOwnership_owned existingForm "delete") as Hd.
  pose proof (validateMCPOwnership_not_owned existingForm "update") as Hnu.
  pose proof (validateMCPOwnership_not_owned existingForm "delete") as Hnd.
  destruct (validateMCPOwnership existingForm "update") as [[]|eu] eqn:Eu;
    destruct (validateMCPOwnership existingForm "delete") as [[]|ed] eqn:Ed.
  - assert (ownedByMCP existingForm) as Hown by (by apply Hu).
    destruct (updateForm client (arg_formId args) (arg_updates args) s1)
      as [[fu|eu] su];
      destruct (deleteForm client (arg_formId args) s1) as [[[]|ed] sd];
      simpl; split_and!; try done; split; try tauto; intros [? ?]; done.
  - exfalso. assert (ownedByMCP existingForm) as Hown by (by apply Hu).
    apply Hd in Hown. done.
  - exfalso. assert (ownedByMCP existingForm) as Hown by (by apply Hd).
    apply Hu in Hown. done.
  - assert (¬ ownedByMCP existingForm) as Hnot
      by (intros Hown; apply Hu in Hown; done).
    simpl. split_and!; [done | done | tauto].
Qed.

Lemma mutation_gated_by_ownership_witness :
  let store : gmap string FormioForm :=
    {[ "abc" := mkForm (Some "abc") (Some "[MCP] Survey") (Some "survey")
                  (Some "mcp-survey") None None None ]} in
  let args := mkArgs "abc" (mkForm None (Some "[MCP] Poll") None None None None None)
                "" "" "" None None None in
  executeToolCall asciiToLowerCase (recording memoryClient) update_form args (store, [])
  = (mapOutcome FormUpdated (updateForm memoryClient "abc" (arg_updates args) store).1,
     ((updateForm memoryClient "abc" (arg_updates args) store).2,
      [CallGetForm "abc"; CallUpdateForm "abc" (arg_updates args)])).
Proof.
  intros store args.
  assert (getForm memoryClient (arg_formId args) store
          = (Returns (mkForm (Some "abc") (Some "[MCP] Survey") (Some "survey")
                        (Some "mcp-survey") None None None), store)) as Hget
    by (vm_compute; reflexivity).
  assert (ownedByMCP (mkForm (Some "abc") (Some "[MCP] Survey") (Some "survey")
                        (Some "mcp-survey") None None None)) as Hown
    by (left; eexists; split; [reflexivity | vm_compute; reflexivity]).
  exact (proj1 (proj2 (proj2 (mutation_gated_by_ownership asciiToLowerCase
                                memoryClient args store store _ Hget)) Hown)).
Defined.

Example ex_update_foreign_form_refused :
  let store : gmap string FormioForm :=
    {[ "xyz" := mkForm (Some "xyz") (Some "Contact") (Some "contact")
                  (Some "contact") None None None ]} in
  let args := mkArgs "xyz" (mkForm None (Some "Hijacked") None None None None None)
                "" "" "" None None None in
  let r := executeToolCall asciiToLowerCase (recording memoryClient) delete_form args
             (store, []) in
  threw r.1 = true ∧ r.2 = (store, [CallGetForm "xyz"]).
Proof. simpl. split; vm_compute; reflexivity. Qed.

(** ** Forms created through the tool are owned *)

Lemma startsWith_title_prefix s : startsWith "[MCP] " ("[MCP] " +:+ s) = true.
Proof. unfold startsWith. simpl. by destruct s. Qed.

Lemma startsWith_path_prefix s : startsWith "mcp-" ("mcp-" +:+ s) = true.
Proof. unfold startsWith. simpl. by destruct s. Qed.

(** C9: for every input create_form accepts (non-empty normalised path, a
    components argument of an accepted shape) the form data sent to the
    forms API has a title starting with "[MCP] " and a path starting with
    "mcp-"; it satisfies isMCPForm, so the ownership check of update_form
    and delete_form passes on it. *)
Theorem created_form_is_owned {S} (toLowerCase : string → string)
    (client : FormioClient S) (args : ToolArgs) (s : S) (comps : Json) :
  normalizePath toLowerCase (arg_path args) ≠ "" →
  componentsOf (arg_components args) = Some comps →
  ∃ formData t p,
    executeToolCall toLowerCase (recording client) create_form args (s, [])
    = (mapOutcome FormCreated (createForm client formData s).1,
       ((createForm client formData s).2, [CallCreateForm formData]))
    ∧ title formData = Some t ∧ startsWith "[MCP] " t = true
    ∧ path formData = Some p ∧ startsWith "mcp-" p = true
    ∧ isMCPForm formData = Some true
    ∧ validateMCPOwnership formData "update" = Returns tt
    ∧ validateMCPOwnership formData "delete" = Returns tt.
Proof.
  intros Hpath Hcomps.
  set (np := normalizePath toLowerCase (arg_path args)) in *.
  set (mcpTitle := if startsWith MCP_TITLE_PREFIX (arg_title args)
                   then arg_title args
                   else MCP_TITLE_PREFIX +:+ arg_title args).
  set (mcpPath := if startsWith MCP_PATH_PREFIX np then np
                  else MCP_PATH_PREFIX +:+ np).
  assert (startsWith "[MCP] " mcpTitle = true) as Ht.
  { subst mcpTitle. unfold MCP_TITLE_PREFIX.
    destruct (startsWith "[MCP] " (arg_title args)) eqn:E;
      [done | apply startsWith_title_prefix]. }
  assert (startsWith "mcp-" mcpPath = true) as Hp.
  { subst mcpPath. unfold MCP_PATH_PREFIX.
    destruct (startsWith "mcp-" np) eqn:E;
      [done | apply startsWith_path_prefix]. }
  set (formData :=
         mkForm None (Some mcpTitle) (Some (arg_name args)) (Some mcpPath)
           (Some comps)
           (Some (orDefault (arg_display args) "form"))
           (Some (orDefault (arg_type args) "form"))).
  assert (ownedByMCP formData) as Hown by (right; by exists mcpPath).
  exists formData, mcpTitle, mcpPath. split_and!; try done.
  - unfold executeToolCall. fold np.
    unfold truthy_string. rewrite bool_decide_eq_true_2 by done. simpl.
    rewrite Hcomps. unfold bind, ret, recording, traced. simpl.
    fold mcpTitle mcpPath formData.
    by destruct (createForm client formData s) as [[f|e] s'].
  - unfold isMCPForm. simpl. unfold MCP_PATH_PREFIX. by rewrite Hp.
  - by apply validateMCPOwnership_owned.
  - by apply validateMCPOwnership_owned.
Qed.

Lemma created_form_is_owned_witness :
  let args := mkArgs "" (mkForm None None None None None None None)
                "Customer Survey" "/Customer Survey 2024/" "customerSurvey"
                (Some (JArray [])) None None in
  ∃ formData t p,
    executeToolCall asciiToLowerCase (recording memoryClient) create_form args (∅, [])
    = (mapOutcome FormCreated (createForm memoryClient formData ∅).1,
       ((createForm memoryClient formData ∅).2, [CallCreateForm formData]))
    ∧ title formData = Some t ∧ startsWith "[MCP] " t = true
    ∧ path formData = Some p ∧ startsWith "mcp-" p = true
    ∧ isMCPForm formData = Some true
    ∧ validateMCPOwnership formData "update" = Returns tt
    ∧ validateMCPOwnership formData "delete" = Returns tt.
Proof.
  intros args.
  assert (normalizePath asciiToLowerCase (arg_path args) ≠ "") as Hpath
    by (vm_compute; discriminate).
  assert (componentsOf (arg_components args) = Some (JArray [])) as Hcomps
    by reflexivity.
  exact (created_form_is_owned asciiToLowerCase memoryClient args ∅ (JArray [])
           Hpath Hcomps).
Defined.

Example ex_normalizePath :
  normalizePath asciiToLowerCase "/Customer Survey 2024/" = "customersurvey2024"
  ∧ normalizePath asciiToLowerCase "--My_Form!/v2--" = "myform/v2"
  ∧ normalizePath asciiToLowerCase "-/ /-" = "".
Proof. split_and!; vm_compute; reflexivity. Qed.

Example ex_create_form_data :
  (executeToolCall asciiToLowerCase (recording memoryClient) create_form
     (mkArgs "" (mkForm None None None None None None None)
        "Customer Survey" "/Customer Survey 2024/" "customerSurvey"
        (Some (JArray [])) None None) (∅, [])).2.2
  = [CallCreateForm
       (mkForm None (Some "[MCP] Customer Survey") (Some "customerSurvey")
          (Some "mcp-customersurvey2024") (Some (JArray []))
          (Some "form") (Some "form"))].
Proof. vm_compute. reflexivity. Qed.

(** * Further properties of the router, the registry and their callers *)

(** ** The activity index *)

Lemma activityDom_unregister c n :
  dom (connectionActivity n) = dom (connectionForms n) →
  dom (connectionActivity (unregisterPreviewConnection c n))
  = dom (connectionForms (unregisterPreviewConnection c n)).
Proof.
  intros Hdom. unfold unregisterPreviewConnection.
  destruct (connectionForms n !! c) as [f|]; [|done].
  destruct (truthy_string f); [|done]. simpl.
  by rewrite !dom_delete_L, Hdom.
Qed.

Lemma activityDom_insertWatch c f now n :
  dom (connectionActivity n) = dom (connectionForms n) →
  dom (connectionActivity (insertWatch c f now n))
  = dom (connectionForms (insertWatch c f now n)).
Proof. intros Hdom. simpl. by rewrite !dom_insert_L, Hdom. Qed.

Lemma activityDom_register c f now n :
  dom (connectionActivity n) = dom (connectionForms n) →
  dom (connectionActivity (registerPreviewConnection c f now n))
  = dom (connectionForms (registerPreviewConnection c f now n)).
Proof.
  intros Hdom. unfold registerPreviewConnection.
  destruct (connectionForms n !! c) as [e|] eqn:Hc;
    [|by apply activityDom_insertWatch].
  destruct (truthy_string e); [|by apply activityDom_insertWatch].
  case_decide.
  - by apply activityDom_insertWatch, activityDom_unregister.
  - simpl. rewrite dom_insert_L, Hdom.
    assert (c ∈ dom (connectionForms n)) as Hin by (apply elem_of_dom; by eexists).
    apply set_eq. intros x. rewrite elem_of_union, elem_of_singleton.
    split; [by intros [->|] | by right].
Qed.

Lemma activityDom_updateActivity c now n :
  dom (connectionActivity n) = dom (connectionForms n) →
  dom (connectionActivity (updateActivity c now n))
  = dom (connectionForms (updateActivity c now n)).
Proof.
  intros Hdom. unfold updateActivity.
  destruct (connectionActivity n !! c) as [t|] eqn:Hc; [|done]. simpl.
  rewrite dom_insert_L, <- Hdom.
  assert (c ∈ dom (connectionActivity n)) as Hin by (apply elem_of_dom; by eexists).
  apply set_eq. intros x. rewrite elem_of_union, elem_of_singleton.
  split; [by intros [->|] | by right].
Qed.

Lemma activityDom_calls cs : ∀ n,
  dom (connectionActivity n) = dom (connectionForms n) →
  dom (connectionActivity (routerCalls cs n)) = dom (connectionForms (routerCalls cs n)).
Proof.
  induction cs as [|call cs IH]; intros n Hdom; [done|].
  simpl. apply IH. destruct call; simpl.
  - by apply activityDom_register.
  - by apply activityDom_unregister.
Qed.

(** X1: after any sequence of register / unregister calls, whatever the form
    ids, the activity index tracks exactly the connections of the reverse
    index, and [updateActivity] keeps it so: it refreshes a tracked
    connection and never starts tracking an unregistered one. *)
Theorem activity_tracks_registrations (cs : list RouterCall) (debounce idle : Z)
    (c : string) (now : Z) :
  let n := routerCalls cs (newNotifier debounce idle) in
  dom (connectionActivity n) = dom (connectionForms n)
  ∧ dom (connectionActivity (updateActivity c now n)) = dom (connectionForms n)
  ∧ connectionForms (updateActivity c now n) = connectionForms n
  ∧ formWatchers (updateActivity c now n) = formWatchers n.
Proof.
  intros n.
  assert (dom (connectionActivity n) = dom (connectionForms n)) as Hdom
    by (by apply activityDom_calls).
  assert (connectionForms (updateActivity c now n) = connectionForms n
          ∧ formWatchers (updateActivity c now n) = formWatchers n) as [Hcf Hfw].
  { unfold updateActivity. by destruct (connectionActivity n !! c). }
  split_and!; [done | | done | done].
  rewrite <- Hcf. by apply activityDom_updateActivity.
Qed.

(** ** The heartbeat of the registry *)

Lemma heartbeatInv_removeConnection c m :
  heartbeatInv m → heartbeatInv (removeConnection c m).
Proof.
  unfold heartbeatInv, removeConnection. intros Hinv. simpl.
  set (conns := match connections m !! c with
                | Some _ => delete c (connections m)
                | None => connections m
                end).
  assert (conns ≠ ∅ → connections m ≠ ∅) as Hne.
  { subst conns. destruct (connections m !! c) eqn:Hc; [|done].
    intros _ Hempty. by rewrite Hempty, lookup_empty in Hc. }
  case_decide as Hsize.
  - apply map_size_empty_iff in Hsize. split; [done | by intros []].
  - assert (conns ≠ ∅) by (by rewrite <- map_size_empty_iff).
    split; [done|]. intros _. apply Hinv. by apply Hne.
Qed.

Lemma heartbeatInv_sendEvent c fr m :
  heartbeatInv m → heartbeatInv (sendEvent c fr m).2.
Proof.
  intros Hinv. unfold sendEvent.
  destruct (connections m !! c) as [conn|] eqn:Hc; [|done].
  destruct (res_write fr (res conn)) as [[wr|] res'].
  - unfold heartbeatInv. simpl. split.
    + intros _ Hempty. apply (insert_non_empty (connections m) c (setRes res' conn)).
      done.
    + intros _. apply Hinv. intros Hempty. by rewrite Hempty, lookup_empty in Hc.
  - by apply heartbeatInv_removeConnection.
Qed.

Lemma heartbeatInv_addConnection c r info now m :
  heartbeatInv (addConnection c r info now m).
Proof.
  unfold addConnection, heartbeatInv. simpl.
  set (m1 := mkSSEManager
               (<[c := mkSSEConnection c r now now info]> (connections m))
               (heartbeatInterval m)).
  set (m2 := (sendEvent c (ConnectionFrame c) m1).2).
  destruct (decide (connections m2 = ∅)) as [Hempty|Hne].
  - assert (heartbeatInterval m2 = false) as Hhb.
    { subst m2. unfold sendEvent in *. subst m1. simpl in *.
      rewrite lookup_insert_eq in *. simpl in *.
      destruct (res_write (ConnectionFrame c) r) as [[wr|] res'].
      - simpl in Hempty. by apply insert_non_empty in Hempty.
      - unfold removeConnection in *. simpl in *.
        rewrite lookup_insert_eq in *. simpl in *.
        rewrite decide_True; [done|]. by apply map_size_empty_iff. }
    rewrite Hhb, Hempty, map_size_empty.
    split; [by rewrite bool_decide_eq_true; lia | done].
  - split; [done|]. intros _.
    destruct (heartbeatInterval m2); [done|].
    apply bool_decide_eq_true.
    assert (size (connections m2) ≠ 0%nat) by (by rewrite map_size_empty_iff).
    lia.
Qed.

Lemma broadcast_fold_invariant (P : SSEManager → Prop) fr l : ∀ acc,
  (∀ m c, P m → P (sendEvent c fr m).2) →
  P acc.2 →
  P (foldl (λ acc c,
              let '(ok, m') := sendEvent c fr acc.2 in
              (if ok then S acc.1 else acc.1, m')) acc l).2.
Proof.
  induction l as [|c l IH]; intros acc Hstep Hacc; [done|].
  simpl. apply IH; [done|].
  specialize (Hstep acc.2 c Hacc).
  by destruct (sendEvent c fr acc.2).
Qed.

Lemma heartbeatInv_broadcast fr m : heartbeatInv m → heartbeatInv (broadcast fr m).2.
Proof.
  intros Hinv. unfold broadcast.
  apply (broadcast_fold_invariant heartbeatInv); [|done].
  intros m' c. apply heartbeatInv_sendEvent.
Qed.

(** X2: after any sequence of addConnection / removeConnection / sendEvent /
    broadcast calls on a new registry, the heartbeat timer is running
    exactly when at least one connection is registered. *)
Theorem heartbeat_runs_iff_connected (cs : list RegistryCall) :
  let m := registryCalls cs (mkSSEManager ∅ false) in
  heartbeatInterval m = true ↔ connections m ≠ ∅.
Proof.
  simpl.
  assert (heartbeatInv (mkSSEManager ∅ false)) as H0 by done.
  revert H0. generalize (mkSSEManager ∅ false).
  induction cs as [|call cs IH]; intros m Hm; [done|].
  simpl. apply IH. destruct call; simpl.
  - apply heartbeatInv_addConnection.
  - by apply heartbeatInv_removeConnection.
  - by apply heartbeatInv_sendEvent.
  - by apply heartbeatInv_broadcast.
Qed.

(** ** Opening and closing a preview connection *)

Lemma filter_ne_absent (c : string) (l : list string) :
  c ∉ l → filter (λ y, y ≠ c) l = l.
Proof.
  induction l as [|x l IH]; intros Hc; [done|].
  apply not_elem_of_cons in Hc as [Hne Hc].
  rewrite filter_cons_True by done. by rewrite IH.
Qed.

Lemma register_unregister_id c f now n :
  watchIndexInv n → f ≠ "" →
  connectionForms n !! c = None → connectionActivity n !! c = None →
  unregisterPreviewConnection c (registerPreviewConnection c f now n) = n.
Proof.
  intros (Hne & Hiff & Hnil & Hnd) Hf Hc Hact.
  unfold registerPreviewConnection. rewrite Hc.
  pose proof (formWatchers_insertWatch c f now n) as Hfw1.
  set (n1 := insertWatch c f now n) in *.
  assert (connectionForms n1 = <[c := f]> (connectionForms n)) as Hcf1 by done.
  assert (connectionActivity n1 = <[c := now]> (connectionActivity n)) as Hact1 by done.
  assert (pendingNotifications n1 = pendingNotifications n
          ∧ debounceInterval n1 = debounceInterval n
          ∧ idleTimeout n1 = idleTimeout n) as (Hp1 & Hd1 & Hi1) by done.
  assert (c ∉ getConnectionsByForm f n) as Hnotin
    by (intros Hin%Hiff; congruence).
  assert (set_delete c (set_add c (getConnectionsByForm f n))
          = getConnectionsByForm f n) as Hback.
  { unfold set_add. rewrite decide_False by done.
    unfold set_delete. rewrite filter_app, filter_ne_absent by done.
    rewrite filter_cons_False by (intros H; by apply H).
    rewrite filter_nil. apply app_nil_r. }
  unfold unregisterPreviewConnection.
  rewrite Hcf1, lookup_insert_eq. unfold truthy_string.
  rewrite bool_decide_eq_true_2 by done.
  rewrite Hfw1, lookup_insert_eq, Hback, Hact1, Hp1, Hd1, Hi1.
  rewrite (delete_insert_id (connectionForms n)) by done.
  rewrite (delete_insert_id (connectionActivity n)) by done.
  assert ((if decide (length (getConnectionsByForm f n) = 0%nat)
           then delete f (<[f := set_add c (getConnectionsByForm f n)]> (formWatchers n))
           else <[f := getConnectionsByForm f n]>
                  (<[f := set_add c (getConnectionsByForm f n)]> (formWatchers n)))
          = formWatchers n) as ->.
  { unfold getConnectionsByForm in *.
    destruct (formWatchers n !! f) as [ws|] eqn:Hws.
    - destruct ws as [|x ws]; [by destruct (Hnil f)|].
      rewrite decide_False by done. rewrite insert_insert_eq. by apply insert_id.
    - rewrite decide_True by done. by apply delete_insert_id. }
  by destruct n.
Qed.

Lemma add_remove_connection_id c r info now m :
  heartbeatInv m → connections m !! c = None →
  removeConnection c (addConnection c r info now m) = m.
Proof.
  intros Hinv Hc. destruct m as [conns hb]. unfold heartbeatInv in Hinv.
  simpl in *.
  assert (size conns = 0%nat → hb = false) as Hzero.
  { intros Hs%map_size_empty_iff. destruct hb; [|done].
    by destruct (proj1 Hinv eq_refl). }
  assert (size conns ≠ 0%nat → hb = true) as Hpos.
  { intros Hs. apply Hinv. by rewrite <- map_size_empty_iff. }
  unfold addConnection, sendEvent, removeConnection. simpl.
  rewrite lookup_insert_eq. unfold res_write. simpl.
  destruct (writes r); simpl.
  - rewrite lookup_insert_eq, insert_insert_eq, delete_insert_id by done.
    f_equal. destruct (decide (size conns = 0%nat)) as [Hs|Hs];
      [by rewrite Hzero | by rewrite Hpos].
  - rewrite lookup_insert_eq, insert_insert_eq, delete_insert_id by done.
    f_equal. destruct (decide (size conns = 0%nat)) as [Hs|Hs];
      [by rewrite Hzero | by rewrite Hpos].
  - rewrite delete_insert_id by done. rewrite Hc. f_equal.
    destruct (decide (size conns = 0%nat)) as [Hs|Hs].
    + by rewrite Hzero.
    + by rewrite Hpos.
Qed.

(** X3: a preview connection that is opened and then closed leaves the
    registry and the router exactly as they were, provided the connection id
    is new and the form id is not empty. *)
Theorem open_close_preview_roundtrip (w : World) (c f : string) (r : Response) :
  watchIndexInv (notifier w) → heartbeatInv (sseManager w) →
  f ≠ "" →
  connections (sseManager w) !! c = None →
  connectionForms (notifier w) !! c = None →
  connectionActivity (notifier w) !! c = None →
  closePreview c (acceptPreview c f r w) = w.
Proof.
  intros Hinv Hhb Hf Hconn Hcf Hact.
  unfold closePreview, acceptPreview, withNotifier, withSSE. simpl.
  rewrite register_unregister_id, add_remove_connection_id by done.
  by destruct w.
Qed.

Lemma open_close_preview_roundtrip_witness :
  closePreview "c1" (acceptPreview "c1" "f1" (mkResponse WriteOk []) (newWorld 500 300000))
  = newWorld 500 300000.
Proof.
  assert (watchIndexInv (notifier (newWorld 500 300000))) as Hinv
    by apply watchIndexInv_new.
  assert (heartbeatInv (sseManager (newWorld 500 300000))) as Hhb by done.
  assert ("f1" ≠ "") as Hf by discriminate.
  exact (open_close_preview_roundtrip (newWorld 500 300000) "c1" "f1"
           (mkResponse WriteOk []) Hinv Hhb Hf (lookup_empty _) (lookup_empty _)
           (lookup_empty _)).
Defined.

(** ** Idle eviction *)

Lemma getConnectionsByForm_unregister_inv c n f :
  watchIndexInv n →
  getConnectionsByForm f (unregisterPreviewConnection c n)
  = filter (λ y, y ≠ c) (getConnectionsByForm f n).
Proof.
  intros (Hne & Hiff & _).
  destruct (connectionForms n !! c) as [g|] eqn:Hc.
  - rewrite (getConnectionsByForm_unregister c g) by (by eauto).
    case_decide as Hfg; [by subst|].
    symmetry. apply filter_ne_absent. intros Hin%Hiff. congruence.
  - rewrite unregister_unwatched by done.
    symmetry. apply filter_ne_absent. intros Hin%Hiff. congruence.
Qed.

Lemma getConnectionsByForm_unregisterAll cs : ∀ n f,
  watchIndexInv n →
  getConnectionsByForm f (unregisterAll cs n)
  = filter (λ y, y ∉ cs) (getConnectionsByForm f n).
Proof.
  induction cs as [|c cs IH]; intros n f Hinv.
  - simpl. symmetry. induction (getConnectionsByForm f n) as [|x l IHl]; [done|].
    rewrite filter_cons_True by apply not_elem_of_nil. by rewrite IHl.
  - change (unregisterAll (c :: cs) n)
      with (unregisterAll cs (unregisterPreviewConnection c n)).
    rewrite IH by (by apply watchIndexInv_unregister).
    rewrite getConnectionsByForm_unregister_inv by done.
    rewrite list_filter_filter. apply list_filter_iff.
    intros x. rewrite not_elem_of_cons. tauto.
Qed.

Lemma connectionActivity_unregister_inv c n c' :
  watchIndexInv n → dom (connectionActivity n) = dom (connectionForms n) →
  connectionActivity (unregisterPreviewConnection c n) !! c'
  = if decide (c' = c) then None else connectionActivity n !! c'.
Proof.
  intros (Hne & _) Hdom. unfold unregisterPreviewConnection.
  destruct (connectionForms n !! c) as [f|] eqn:Hc.
  - unfold truthy_string. rewrite bool_decide_eq_true_2 by (by eauto). simpl.
    case_decide; [subst; apply lookup_delete_eq | by apply lookup_delete_ne].
  - case_decide as Hcc; [|done]. subst.
    apply not_elem_of_dom. rewrite Hdom. by apply not_elem_of_dom.
Qed.

Lemma connectionActivity_unregisterAll cs : ∀ n c',
  watchIndexInv n → dom (connectionActivity n) = dom (connectionForms n) →
  connectionActivity (unregisterAll cs n) !! c'
  = if decide (c' ∈ cs) then None else connectionActivity n !! c'.
Proof.
  induction cs as [|c cs IH]; intros n c' Hinv Hdom.
  - case_decide as Hc; [by apply not_elem_of_nil in Hc | done].
  - change (unregisterAll (c :: cs) n)
      with (unregisterAll cs (unregisterPreviewConnection c n)).
    rewrite IH by (by apply watchIndexInv_unregister || by apply activityDom_unregister).
    rewrite connectionActivity_unregister_inv by done.
    destruct (decide (c' = c)) as [->|Hc].
    + rewrite (decide_True (P := c ∈ c :: cs)) by apply list_elem_of_here.
      by case_decide.
    + destruct (decide (c' ∈ cs)) as [Hin|Hin].
      * by rewrite decide_True by (by apply list_elem_of_further).
      * rewrite decide_False; [done|]. intros [->|?]%elem_of_cons; done.
Qed.

Lemma elem_of_idleConnections c now n :
  c ∈ idleConnections now n
  ↔ ∃ t, connectionActivity n !! c = Some t ∧ idleTimeout n < now - t.
Proof.
  unfold idleConnections. rewrite list_elem_of_fmap. split.
  - intros ([c' t] & -> & Hin). apply list_elem_of_filter in Hin as [Hidle Hin].
    apply elem_of_map_to_list in Hin. by exists t.
  - intros (t & Hc & Hidle). exists (c, t). split; [done|].
    apply list_elem_of_filter. split; [done|]. by apply elem_of_map_to_list.
Qed.

(** X4: the idle sweep unregisters exactly the connections whose last
    activity is more than idleTimeout before now (a connection idle for
    exactly idleTimeout stays): their watch, reverse entry and activity
    stamp are gone, every other connection keeps all three, the watcher
    lists keep their order, the indices stay consistent, the registry is not
    touched, and the streams ended are those of the idle connections that
    the registry still holds. *)
Theorem idle_sweep_evicts_idle_only (w : World) :
  watchIndexInv (notifier w) →
  dom (connectionActivity (notifier w)) = dom (connectionForms (notifier w)) →
  let w' := (cleanupIdleConnections w).1 in
  let ended := (cleanupIdleConnections w).2 in
  let idle c := ∃ t, connectionActivity (notifier w) !! c = Some t
                     ∧ idleTimeout (notifier w) < clock w - t in
  (∀ c, idle c →
        getFormByConnection c (notifier w') = None
        ∧ connectionActivity (notifier w') !! c = None
        ∧ ∀ f, c ∉ getConnectionsByForm f (notifier w'))
  ∧ (∀ c, ¬ idle c →
          getFormByConnection c (notifier w') = getFormByConnection c (notifier w)
          ∧ connectionActivity (notifier w') !! c
            = connectionActivity (notifier w) !! c)
  ∧ (∀ f, getConnectionsByForm f (notifier w')
          = filter (λ c, c ∉ idleConnections (clock w) (notifier w))
              (getConnectionsByForm f (notifier w)))
  ∧ watchIndexInv (notifier w')
  ∧ sseManager w' = sseManager w
  ∧ (∀ c, c ∈ ended ↔ idle c ∧ hasConnection c (sseManager w) = true).
Proof.
  intros Hinv Hdom w' ended idle.
  set (cs := idleConnections (clock w) (notifier w)).
  assert (∀ c, c ∈ cs ↔ idle c) as Hidle
    by (intros c; apply elem_of_idleConnections).
  destruct (unregisterAll_spec cs (notifier w) Hinv) as [Hinv' Hcf].
  assert (notifier w' = unregisterAll cs (notifier w)) as Hn by done.
  unfold getFormByConnection. rewrite Hn. split_and!.
  - intros c Hc%Hidle. split_and!.
    + by rewrite Hcf, decide_True.
    + by rewrite connectionActivity_unregisterAll, decide_True.
    + intros f. rewrite getConnectionsByForm_unregisterAll by done.
      rewrite list_elem_of_filter. tauto.
  - intros c Hc. assert (c ∉ cs) as Hnot by (by rewrite Hidle). split.
    + by rewrite Hcf, decide_False.
    + by rewrite connectionActivity_unregisterAll, decide_False.
  - intros f. by apply getConnectionsByForm_unregisterAll.
  - done.
  - done.
  - intros c. subst ended. unfold cleanupIdleConnections. simpl. fold cs.
    rewrite list_elem_of_filter, Hidle. unfold hasConnection, getConnectionInfo.
    rewrite bool_decide_eq_true. tauto.
Qed.

Lemma idle_sweep_evicts_idle_only_witness :
  let w := advance 300001
             (withNotifier
                (registerPreviewConnection "c3" "f2" 1
                   (registerPreviewConnection "c2" "f1" 200000
                      (registerPreviewConnection "c1" "f1" 0 (newNotifier 500 300000))))
                (newWorld 500 300000)) in
  getConnectionsByForm "f1" (notifier (cleanupIdleConnections w).1)
  = filter (λ c, c ∉ idleConnections (clock w) (notifier w))
      (getConnectionsByForm "f1" (notifier w)).
Proof.
  intros w.
  assert (watchIndexInv (notifier w)) as Hinv.
  { apply watchIndexInv_advance. simpl.
    repeat (apply watchIndexInv_register; [discriminate|]).
    apply watchIndexInv_new. }
  assert (dom (connectionActivity (notifier w)) = dom (connectionForms (notifier w)))
    as Hdom.
  { exact (activityDom_calls
             [Register "c1" "f1" 0; Register "c2" "f1" 200000; Register "c3" "f2" 1]
             (newNotifier 500 300000) eq_refl). }
  exact (proj1 (proj2 (proj2 (idle_sweep_evicts_idle_only w Hinv Hdom))) "f1").
Defined.

Example ex_idle_sweep_boundary :
  let w := advance 300001
             (withNotifier
                (registerPreviewConnection "c3" "f2" 1
                   (registerPreviewConnection "c2" "f1" 200000
                      (registerPreviewConnection "c1" "f1" 0 (newNotifier 500 300000))))
                (newWorld 500 300000)) in
  getConnectionsByForm "f1" (notifier (cleanupIdleConnections w).1) = ["c2"]
  ∧ getConnectionsByForm "f2" (notifier (cleanupIdleConnections w).1) = ["c3"].
Proof. simpl. split; vm_compute; reflexivity. Qed.

(** ** Shutdown of the router *)

Lemma clearAll_spec (l : list (string * nat)) : ∀ w,
  let w' := foldl (λ acc p, clearTimeout p.2 acc) w l in
  (∀ h, timers w' !! h = if decide (h ∈ l.*2) then None else timers w !! h)
  ∧ clock w' = clock w ∧ nextTimer w' = nextTimer w
  ∧ sseManager w' = sseManager w ∧ notifier w' = notifier w
  ∧ dispatches w' = dispatches w.
Proof.
  induction l as [|p l IH]; intros w.
  - simpl. split_and!; done.
  - cbn [foldl]. destruct (IH (clearTimeout p.2 w)) as (Ht & Hc & Hn & Hs & Hno & Hd).
    split_and!; try done. intros h. rewrite Ht.
    change (timers (clearTimeout p.2 w)) with (delete p.2 (timers w)).
    rewrite fmap_cons.
    destruct (decide (h ∈ l.*2)) as [Hin|Hin];
      destruct (decide (h ∈ p.2 :: l.*2)) as [Hin'|Hin']; try done.
    + exfalso. apply Hin'. by apply list_elem_of_further.
    + apply elem_of_cons in Hin' as [->|?]; [apply lookup_delete_eq | done].
    + apply lookup_delete_ne. intros <-. apply Hin'. apply list_elem_of_here.
Qed.

(** X5: after [cleanup] no debounce timer is armed, so no dispatch happens
    however much time passes; the pending slots and the three indices are
    empty, and the registry is left as it was. *)
Theorem cleanup_cancels_pending_dispatches (w : World) (T : Z) :
  timersInv w →
  timers (cleanup w) = ∅
  ∧ dispatches (advance T (cleanup w)) = dispatches w
  ∧ pendingNotifications (notifier (cleanup w)) = ∅
  ∧ (∀ f, getConnectionsByForm f (notifier (cleanup w)) = [])
  ∧ (∀ c, getFormByConnection c (notifier (cleanup w)) = None)
  ∧ connectionActivity (notifier (cleanup w)) = ∅
  ∧ sseManager (cleanup w) = sseManager w.
Proof.
  intros [Hpend _].
  destruct (clearAll_spec (map_to_list (pendingNotifications (notifier w))) w)
    as (Ht & _ & _ & Hs & _ & Hd).
  assert (timers (cleanup w) = ∅) as Hempty.
  { apply map_eq. intros h. unfold cleanup. simpl. rewrite Ht, lookup_empty.
    case_decide as Hin; [done|].
    destruct (timers w !! h) as [tm|] eqn:Hh; [|done].
    exfalso. apply Hin. apply Hpend in Hh.
    apply list_elem_of_fmap. exists (timerForm tm, h). split; [done|].
    by apply elem_of_map_to_list. }
  split_and!; try done.
  unfold advance, dueTimers. rewrite Hempty, map_to_list_empty. simpl.
  unfold cleanup. simpl. by rewrite Hd.
Qed.

Lemma cleanup_cancels_pending_dispatches_witness :
  timers (cleanup (notifyFormUpdated "f1" None (newWorld 500 300000))) = ∅
  ∧ dispatches (advance 10000
                  (cleanup (notifyFormUpdated "f1" None (newWorld 500 300000))))
    = dispatches (notifyFormUpdated "f1" None (newWorld 500 300000)).
Proof.
  assert (timersInv (notifyFormUpdated "f1" None (newWorld 500 300000))) as Hinv
    by (apply timersInv_notifyFormUpdated, timersInv_new).
  pose proof (cleanup_cancels_pending_dispatches _ 10000 Hinv) as (H1 & H2 & _).
  exact (conj H1 H2).
Defined.

(** ** One pending timer per form *)

(** X6: in every state the server can reach, two armed debounce timers
    never belong to the same form, and every armed timer is the one recorded
    in the pending slot of its form. *)
Theorem one_armed_timer_per_form (w : World) (h1 h2 : nat) (t1 t2 : Timer) :
  Reachable w →
  timers w !! h1 = Some t1 → timers w !! h2 = Some t2 →
  timerForm t1 = timerForm t2 →
  h1 = h2 ∧ pendingNotifications (notifier w) !! timerForm t1 = Some h1.
Proof.
  intros [_ [Hpend _]]%reachable_invariants H1 H2 Hform.
  apply Hpend in H1, H2. rewrite Hform in H1. split; [congruence|].
  by rewrite Hform.
Qed.

Lemma one_armed_timer_per_form_witness :
  let w := notifyFormUpdated "f1" None
             (advance 100 (notifyFormUpdated "f1" None (newWorld 500 300000))) in
  pendingNotifications (notifier w) !! "f1" = Some 1%nat.
Proof.
  intros w.
  assert (Reachable w) as Hr by (repeat constructor).
  assert (timers w !! 1%nat = Some (mkTimer 600 "f1" updated None)) as Ht
    by (vm_compute; reflexivity).
  exact (proj2 (one_armed_timer_per_form w 1 1 _ _ Hr Ht Ht eq_refl)).
Defined.

(** ** What a dispatch touches *)

(** X7: a dispatch for form f writes only to the connections watching f:
    every other connection keeps its stream and its registration; the
    dispatch adds no connection to the registry and no watcher to any form;
    and with no watcher for f it changes neither registry nor router. *)
Theorem dispatch_touches_only_watchers (w : World) (f : string) (ct : ChangeType)
    (d : option FormioForm) :
  watchIndexInv (notifier w) →
  let w' := sendNotification f ct d w in
  (∀ c, c ∉ getConnectionsByForm f (notifier w) →
        connections (sseManager w') !! c = connections (sseManager w) !! c
        ∧ getFormByConnection c (notifier w') = getFormByConnection c (notifier w))
  ∧ (∀ c, hasConnection c (sseManager w') = hasConnection c (sseManager w))
  ∧ (∀ g c, c ∈ getConnectionsByForm g (notifier w') →
            c ∈ getConnectionsByForm g (notifier w))
  ∧ (getConnectionsByForm f (notifier w) = [] →
     sseManager w' = sseManager w ∧ notifier w' = notifier w).
Proof.
  intros Hinv w'.
  destruct (sendNotification_spec f ct d w) as (_ & _ & _ & _ & Hsse & Hn).
  fold w' in Hsse, Hn.
  set (ws := getConnectionsByForm f (notifier w)) in *.
  destruct (dispatchLoop_spec f (clock w) ct ws (sseManager w)) as (Hhas & _ & Hwr).
  rewrite <- Hsse in Hhas, Hwr.
  destruct (unregisterAll_spec
              (filter (λ c, hasConnection c (sseManager w) = false) ws)
              (notifier w) Hinv) as [Hinv' Hcf].
  rewrite <- Hn in Hinv', Hcf.
  split_and!.
  - intros c Hc. split.
    + rewrite (Hwr (proj2 (proj2 (proj2 Hinv)) f) c). by rewrite decide_False.
    + unfold getFormByConnection. rewrite Hcf, decide_False; [done|].
      intros [_ Hin]%list_elem_of_filter. done.
  - done.
  - intros g c Hin. rewrite Hn in Hin.
    rewrite getConnectionsByForm_unregisterAll in Hin by done.
    by apply list_elem_of_filter in Hin as [_ Hin].
  - intros Hnil. subst w'. unfold sendNotification. fold ws. rewrite Hnil. done.
Qed.

Lemma dispatch_touches_only_watchers_witness :
  let w := acceptPreview "c2" "f2" (mkResponse WriteOk [])
             (acceptPreview "c1" "f1" (mkResponse WriteOk []) (newWorld 500 300000)) in
  let w' := sendNotification "f1" updated None w in
  connections (sseManager w') !! "c2" = connections (sseManager w) !! "c2"
  ∧ getFormByConnection "c2" (notifier w') = getFormByConnection "c2" (notifier w).
Proof.
  intros w w'.
  assert (watchIndexInv (notifier w)) as Hinv.
  { repeat (apply watchIndexInv_register; [discriminate|]). apply watchIndexInv_new. }
  assert ("c2" ∉ getConnectionsByForm "f1" (notifier w)) as Hc.
  { vm_compute. intros [Habs|Habs]%elem_of_cons; [discriminate Habs|].
    by apply not_elem_of_nil in Habs. }
  exact (proj1 (dispatch_touches_only_watchers w "f1" updated None Hinv) "c2" Hc).
Defined.

(** X8: notifyFormDeleted(f) puts one form-deleted event for f, stamped
    with the time of the call, on the stream of every watcher of f that the
    registry holds and whose write does not throw, before unregistering
    them; streams of other connections are not written to. *)
Theorem deleted_form_event_delivered (w : World) (f c : string) (conn : SSEConnection) :
  watchIndexInv (notifier w) →
  connections (sseManager w) !! c = Some conn →
  let w' := notifyFormDeleted f w in
  ∃ conn',
    connections (sseManager w') !! c = Some conn'
    ∧ written (res conn')
      = if decide (c ∈ getConnectionsByForm f (notifier w)
                   ∧ writes (res conn) ≠ WriteThrows)
        then written (res conn) ++ [FormDeletedFrame f (clock w)]
        else written (res conn).
Proof.
  intros Hinv Hconn w'.
  destruct (notifyFormDeleted_spec f w) as (_ & _ & Hsse & _).
  fold w' in Hsse.
  destruct (sendNotification_spec f deleted None w) as (_ & _ & _ & _ & Hsse1 & _).
  rewrite Hsse, Hsse1.
  destruct (dispatchLoop_spec f (clock w) deleted
              (getConnectionsByForm f (notifier w)) (sseManager w)) as (_ & _ & Hwr).
  rewrite (Hwr (proj2 (proj2 (proj2 Hinv)) f) c), Hconn.
  destruct (decide (c ∈ getConnectionsByForm f (notifier w))) as [Hin|Hin].
  - eexists. split; [done|]. rewrite written_attempted. simpl.
    destruct (decide (writes (res conn) = WriteThrows)) as [Hthr|Hthr].
    + rewrite decide_False; [done|]. by intros [_ ?].
    + by rewrite decide_True.
  - eexists. split; [done|]. rewrite decide_False; [done|]. by intros [? _].
Qed.

Lemma deleted_form_event_delivered_witness :
  let w := acceptPreview "c1" "f1" (mkResponse WriteOk []) (newWorld 500 300000) in
  ∃ conn',
    connections (sseManager (notifyFormDeleted "f1" w)) !! "c1" = Some conn'
    ∧ written (res conn') = [ConnectionFrame "c1"; FormDeletedFrame "f1" 0].
Proof.
  intros w.
  assert (watchIndexInv (notifier w)) as Hinv
    by (apply watchIndexInv_register; [discriminate | apply watchIndexInv_new]).
  assert (connections (sseManager w) !! "c1"
          = Some (mkSSEConnection "c1" (mkResponse WriteOk [ConnectionFrame "c1"])
                    0 0 None)) as Hconn by (vm_compute; reflexivity).
  exact (deleted_form_event_delivered w "f1" "c1" _ Hinv Hconn).
Defined.

(** ** Broadcast *)

Lemma sendEvent_spec c fr m :
  (sendEvent c fr m).1 = writesOk m c
  ∧ ∀ k, connections (sendEvent c fr m).2 !! k
         = if decide (k = c) then connections m !! c ≫= afterSendEvent fr
           else connections m !! k.
Proof.
  unfold sendEvent, writesOk.
  destruct (connections m !! c) as [conn|] eqn:Hc.
  - assert (Some conn ≫= afterSendEvent fr = afterSendEvent fr conn) as -> by done.
    unfold afterSendEvent, attempted, res_write.
    destruct (writes (res conn)) eqn:Hw.
    + split; [done|]. intros k. cbn [snd connections].
      destruct (decide (k = c)) as [->|Hk].
      * by rewrite lookup_insert_eq.
      * by rewrite lookup_insert_ne.
    + split; [done|]. intros k. cbn [snd connections].
      destruct (decide (k = c)) as [->|Hk].
      * by rewrite lookup_insert_eq.
      * by rewrite lookup_insert_ne.
    + split; [done|]. intros k. cbn [snd]. unfold removeConnection. cbn [connections].
      rewrite Hc. destruct (decide (k = c)) as [->|Hk].
      * by rewrite lookup_delete_eq.
      * by rewrite lookup_delete_ne.
  - split; [done|]. intros k. case_decide; by subst.
Qed.

Lemma filter_ext_elem {A} (P Q : A → Prop) `{!∀ x, Decision (P x), !∀ x, Decision (Q x)}
    (l : list A) :
  (∀ x, x ∈ l → (P x ↔ Q x)) → filter P l = filter Q l.
Proof.
  induction l as [|a l IH]; intros Hext; [done|].
  assert (filter P l = filter Q l) as Hl
    by (apply IH; intros x Hx; apply Hext; by apply list_elem_of_further).
  destruct (decide (P a)) as [Ha|Ha].
  - rewrite !filter_cons_True; [by rewrite Hl | | done].
    apply Hext; [apply list_elem_of_here | done].
  - rewrite !filter_cons_False; [done | | done].
    intros Hq. apply Ha. apply Hext; [apply list_elem_of_here | done].
Qed.

Lemma broadcast_fold_spec fr l : ∀ acc,
  NoDup l →
  let r := foldl (λ acc c,
                    let '(ok, m') := sendEvent c fr acc.2 in
                    (if ok then S acc.1 else acc.1, m')) acc l in
  r.1 = (acc.1 + length (filter (λ c, writesOk acc.2 c = true) l))%nat
  ∧ ∀ k, connections r.2 !! k
         = if decide (k ∈ l) then connections acc.2 !! k ≫= afterSendEvent fr
           else connections acc.2 !! k.
Proof.
  induction l as [|c l IH]; intros acc Hnd.
  - cbn [foldl]. cbv zeta. split; [rewrite filter_nil; simpl; lia|]. intros k.
    rewrite decide_False; [done | apply not_elem_of_nil].
  - apply NoDup_cons in Hnd as [Hc Hnd]. cbn [foldl].
    destruct (sendEvent_spec c fr acc.2) as [Hok Hconn].
    destruct (sendEvent c fr acc.2) as [ok m'] eqn:Hsend. simpl in Hok, Hconn.
    set (acc' := (if ok then S acc.1 else acc.1, m')).
    destruct (IH acc' Hnd) as [Hcount Hlook]. cbv zeta. split.
    + rewrite Hcount. subst acc'. simpl.
      assert (filter (λ c0, writesOk m' c0 = true) l
              = filter (λ c0, writesOk acc.2 c0 = true) l) as ->.
      { apply filter_ext_elem. intros x Hx. unfold writesOk.
        rewrite Hconn, decide_False; [done|]. by intros ->. }
      rewrite filter_cons. subst ok.
      destruct (writesOk acc.2 c); [rewrite decide_True by done; simpl; lia|].
      rewrite decide_False by done. lia.
    + intros k. rewrite Hlook. subst acc'. simpl. rewrite Hconn.
      destruct (decide (k = c)) as [->|Hk].
      * rewrite decide_False by done.
        by rewrite (decide_True (P := c ∈ c :: l)) by apply list_elem_of_here.
      * destruct (decide (k ∈ l)) as [Hin|Hin].
        -- by rewrite decide_True by (by apply list_elem_of_further).
        -- rewrite decide_False; [done|]. intros [->|?]%elem_of_cons; done.
Qed.

(** X9: broadcast returns the number of connections whose write returns
    true; afterwards every connection whose write threw is gone from the
    registry, every other one is still there with the event recorded on its
    stream, and no connection is added. *)
Theorem broadcast_counts_and_evicts (fr : Frame) (m : SSEManager) :
  (broadcast fr m).1
  = length (filter (λ c, writesOk m c = true) (map_to_list (connections m)).*1)
  ∧ ∀ c, connections (broadcast fr m).2 !! c
         = connections m !! c ≫= afterSendEvent fr.
Proof.
  destruct (broadcast_fold_spec fr (map_to_list (connections m)).*1 (0%nat, m)
              (NoDup_fst_map_to_list (connections m))) as [Hcount Hlook].
  split; [exact Hcount|]. intros c. unfold broadcast. rewrite Hlook. simpl.
  case_decide as Hin; [done|].
  destruct (connections m !! c) as [conn|] eqn:Hc; [|done].
  exfalso. apply Hin. apply list_elem_of_fmap. exists (c, conn).
  split; [done | by apply elem_of_map_to_list].
Qed.

Example ex_broadcast :
  let m := streamBecomes "c2" WriteThrows
             (addConnection "c3" (mkResponse WriteBufferFull []) None 0
                (addConnection "c2" (mkResponse WriteOk []) None 0
                   (addConnection "c1" (mkResponse WriteOk []) None 0
                      (mkSSEManager ∅ false)))) in
  (broadcast (FormDeletedFrame "f" 7) m).1 = 1%nat
  ∧ hasConnection "c2" (broadcast (FormDeletedFrame "f" 7) m).2 = false
  ∧ hasConnection "c3" (broadcast (FormDeletedFrame "f" 7) m).2 = true.
Proof. simpl. split_and!; vm_compute; reflexivity. Qed.

(** ** Streams follow the dispatches *)














Example ex_stream_of_two_watchers :
  let w := acceptPreview "c2" "f2" (mkResponse WriteOk [])
             (acceptPreview "c1" "f1" (mkResponse WriteBufferFull [])
                (newWorld 500 300000)) in
  let w' := foldl routerEvent w
              [OnFormUpdated "f1" None; OnFormCreated "f2" None; TimePasses 600] in
  streamOf "c1" w' = [ConnectionFrame "c1"; FormUpdateFrame "f1" 500 updated]
  ∧ streamOf "c2" w' = [ConnectionFrame "c2"; FormUpdateFrame "f2" 0 created].
Proof. split; vm_compute; reflexivity. Qed.



(** ** The connection limit of the preview-updates route *)

Lemma connectionForms_unregister_subseteq c n :
  connectionForms (unregisterPreviewConnection c n) ⊆ connectionForms n.
Proof.
  unfold unregisterPreviewConnection.
  destruct (connectionForms n !! c) as [f|]; [|done].
  destruct (truthy_string f); [|done]. simpl. apply delete_subseteq.
Qed.

Lemma connectionForms_unregisterAll_subseteq cs : ∀ n,
  connectionForms (unregisterAll cs n) ⊆ connectionForms n.
Proof.
  induction cs as [|c cs IH]; intros n; [done|].
  change (unregisterAll (c :: cs) n)
    with (unregisterAll cs (unregisterPreviewConnection c n)).
  etrans; [apply IH | apply connectionForms_unregister_subseteq].
Qed.

Lemma size_insertWatch c f now n :
  (size (connectionForms (insertWatch c f now n)) ≤ S (size (connectionForms n)))%nat.
Proof.
  unfold insertWatch. simpl. rewrite map_size_insert.
  destruct (connectionForms n !! c); simpl; lia.
Qed.

Lemma size_register c f now n :
  (size (connectionForms (registerPreviewConnection c f now n))
   ≤ S (size (connectionForms n)))%nat.
Proof.
  unfold registerPreviewConnection.
  destruct (connectionForms n !! c) as [e|]; [|apply size_insertWatch].
  destruct (truthy_string e); [|apply size_insertWatch].
  case_decide; [|simpl; lia].
  etrans; [apply size_insertWatch|].
  apply le_n_S, map_subseteq_size, connectionForms_unregister_subseteq.
Qed.

Lemma connectionForms_sendNotification f ct d w :
  connectionForms (notifier (sendNotification f ct d w)) ⊆ connectionForms (notifier w).
Proof.
  destruct (sendNotification_spec f ct d w) as (_ & _ & _ & _ & _ & ->).
  apply connectionForms_unregisterAll_subseteq.
Qed.

Lemma connectionForms_fireTimer w p :
  connectionForms (notifier (fireTimer w p)) ⊆ connectionForms (notifier w).
Proof.
  unfold fireTimer. destruct (timers w !! p.1) as [tm|]; [|done].
  unfold timerCallback. simpl.
  apply (connectionForms_sendNotification (timerForm tm) (timerChange tm) (timerData tm)
           (mkWorld (Z.max (clock w) (due tm)) (delete p.1 (timers w)) (nextTimer w)
              (sseManager w) (notifier w) (dispatches w))).
Qed.

Lemma connectionForms_advance t w :
  connectionForms (notifier (advance t w)) ⊆ connectionForms (notifier w).
Proof.
  unfold advance. simpl.
  apply (foldl_invariant
           (λ x, connectionForms (notifier x) ⊆ connectionForms (notifier w))
           fireTimer (dueTimers t w) w); [|done].
  intros x p _ Hx. etrans; [apply connectionForms_fireTimer | done].
Qed.

Lemma connectionForms_notifyFormUpdated f d w :
  connectionForms (notifier (notifyFormUpdated f d w)) = connectionForms (notifier w).
Proof.
  unfold notifyFormUpdated, debounceNotification.
  by destruct (pendingNotifications (notifier w) !! f).
Qed.

Lemma connectionForms_notifyFormDeleted f w :
  connectionForms (notifier (notifyFormDeleted f w)) ⊆ connectionForms (notifier w).
Proof.
  destruct (notifyFormDeleted_spec f w) as (_ & _ & _ & _ & _ & _ & p & ->).
  etrans; [apply connectionForms_unregisterAll_subseteq|]. simpl.
  apply connectionForms_sendNotification.
Qed.

Lemma watchIndexInv_routerEvent w e :
  watchIndexInv (notifier w) → watchIndexInv (notifier (routerEvent w e)).
Proof.
  intros Hinv. destruct e as [f d|f d|t]; cbn [routerEvent].
  - by apply watchIndexInv_notifyFormUpdated.
  - by apply watchIndexInv_sendNotification.
  - by apply watchIndexInv_advance.
Qed.

Lemma connectionForms_routerEvent w e :
  connectionForms (notifier (routerEvent w e)) ⊆ connectionForms (notifier w).
Proof.
  destruct e as [f d|f d|t]; cbn [routerEvent].
  - by rewrite connectionForms_notifyFormUpdated.
  - apply connectionForms_sendNotification.
  - apply connectionForms_advance.
Qed.

Lemma serverEvent_limit trim max w e :
  watchIndexInv (notifier w) →
  Z.of_nat (size (connectionForms (notifier w))) ≤ max →
  watchIndexInv (notifier (serverEvent trim max w e))
  ∧ Z.of_nat (size (connectionForms (notifier (serverEvent trim max w e)))) ≤ max.
Proof.
  intros Hinv Hsize.
  assert (∀ n', connectionForms n' ⊆ connectionForms (notifier w) →
                Z.of_nat (size (connectionForms n')) ≤ max) as Hsub.
  { intros n' Hn'. apply map_subseteq_size in Hn'. lia. }
  destruct e as [f c r|c|c b|e|f|]; cbn [serverEvent].
  - unfold previewUpdatesRoute.
    destruct (negb (truthy_string f) || bool_decide (trim f = "")) eqn:Hblank;
      [done|].
    apply orb_false_elim in Hblank as [Hf _].
    apply negb_false_iff, bool_decide_eq_true_1 in Hf.
    case_decide as Hfull; [done|]. simpl in Hfull. cbn [snd]. unfold acceptPreview. simpl. split.
    + by apply watchIndexInv_register.
    + pose proof (size_register c f (clock w) (notifier w)). lia.
  - split; [by apply watchIndexInv_unregister|].
    apply Hsub, connectionForms_unregister_subseteq.
  - done.
  - split; [by apply watchIndexInv_routerEvent|].
    apply Hsub, connectionForms_routerEvent.
  - split; [by apply watchIndexInv_notifyFormDeleted|].
    apply Hsub, connectionForms_notifyFormDeleted.
  - split; [by apply unregisterAll_spec|].
    apply Hsub, connectionForms_unregisterAll_subseteq.
Qed.

(** X12: with a connection limit maxPreviewConnections >= 0, whatever
    preview requests arrive (including blank form ids), whichever streams
    close or break, whatever forms are updated, created or deleted and
    however time passes and idle sweeps run, the number of connections the
    router counts (getStats().totalConnections) never exceeds the limit, no
    connection is ever registered for the empty form id, and the two watch
    indices stay consistent. *)
Theorem preview_connections_within_limit (trim : string → string)
    (maxPreviewConnections debounce idle : Z) (events : list ServerEvent) :
  0 ≤ maxPreviewConnections →
  let w := foldl (serverEvent trim maxPreviewConnections) (newWorld debounce idle)
             events in
  Z.of_nat (totalConnections (getStats (notifier w))) ≤ maxPreviewConnections
  ∧ (∀ c, getFormByConnection c (notifier w) ≠ Some "")
  ∧ indicesConsistent (notifier w).
Proof.
  intros Hmax w.
  assert (watchIndexInv (notifier w)
          ∧ Z.of_nat (size (connectionForms (notifier w))) ≤ maxPreviewConnections)
    as [Hinv Hsize].
  { apply (foldl_invariant
             (λ x, watchIndexInv (notifier x)
                   ∧ Z.of_nat (size (connectionForms (notifier x)))
                     ≤ maxPreviewConnections)).
    - intros x e _ [Hx1 Hx2]. by apply serverEvent_limit.
    - split; [apply watchIndexInv_new | simpl; rewrite map_size_empty; lia]. }
  split_and!; [done | | by apply watchIndexInv_consistent].
  intros c Hc. by apply (proj1 Hinv) in Hc.
Qed.

Lemma preview_connections_within_limit_witness :
  let w := foldl (serverEvent asciiTrim 2) (newWorld 500 300000)
             [PreviewRequest "f1" "c1" (mkResponse WriteOk []);
              PreviewRequest "f1" "c2" (mkResponse WriteOk []);
              PreviewRequest "f2" "c3" (mkResponse WriteOk []);
              PreviewClosed "c1";
              PreviewRequest "" "c4" (mkResponse WriteOk [])] in
  Z.of_nat (totalConnections (getStats (notifier w))) ≤ 2
  ∧ (∀ c, getFormByConnection c (notifier w) ≠ Some "")
  ∧ indicesConsistent (notifier w).
Proof.
  apply (preview_connections_within_limit asciiTrim 2 500 300000). lia.
Defined.

Example ex_third_preview_refused :
  let w := foldl (serverEvent asciiTrim 2) (newWorld 500 300000)
             [PreviewRequest "f1" "c1" (mkResponse WriteOk []);
              PreviewRequest "f1" "c2" (mkResponse WriteOk [])] in
  (previewUpdatesRoute asciiTrim 2 "f2" "c3" (mkResponse WriteOk []) w).1 = ServiceUnavailable
  ∧ (previewUpdatesRoute asciiTrim 2 "" "c3" (mkResponse WriteOk []) w).1 = BadRequest
  ∧ (previewUpdatesRoute asciiTrim 2 "  " "c3" (mkResponse WriteOk []) w).1 = BadRequest
  ∧ (previewUpdatesRoute asciiTrim 2 "f2" "c3" (mkResponse WriteOk [])
       (closePreview "c1" w)).1 = EventStream.
Proof. split_and!; vm_compute; reflexivity. Qed.

(** ** What create_form sends to the forms API *)

Lemma dropLeading_drop l : ∃ k, dropLeading l = drop k l.
Proof.
  induction l as [|c l [k IH]]; [by exists 0%nat|]. simpl.
  destruct (isEdgeChar c); [by exists (S k) | by exists 0%nat].
Qed.

Lemma dropLeading_head l c rest :
  dropLeading l = c :: rest → isEdgeChar c = false.
Proof.
  induction l as [|a l IH]; [done|]. simpl.
  destruct (isEdgeChar a) eqn:Ha; [done|]. by intros [= <- _].
Qed.

Lemma Forall_dropLeading (P : Ascii.ascii → Prop) l :
  Forall P l → Forall P (dropLeading l).
Proof. destruct (dropLeading_drop l) as [k ->]. apply Forall_drop. Qed.

Lemma last_rev_head {A} (l : list A) : last (rev l) = head l.
Proof. destruct l as [|a l]; [done|]. simpl. apply last_snoc. Qed.

Lemma list_ascii_of_string_app s1 s2 :
  String.list_ascii_of_string (s1 +:+ s2)
  = String.list_ascii_of_string s1 ++ String.list_ascii_of_string s2.
Proof. induction s1 as [|a s1 IH]; [done|]. simpl. by rewrite IH. Qed.

Lemma normalizePath_chars toLowerCase p :
  let l := String.list_ascii_of_string (normalizePath toLowerCase p) in
  Forall (λ c, isPathChar c = true) l
  ∧ (∀ c, last l = Some c → isEdgeChar c = false)
  ∧ (normalizePath toLowerCase p ≠ "" → l ≠ []).
Proof.
  unfold normalizePath. cbv zeta.
  rewrite String.list_ascii_of_string_of_list_ascii.
  set (kept := List.filter isPathChar (String.list_ascii_of_string (toLowerCase p))).
  assert (Forall (λ c, isPathChar c = true) kept) as Hkept.
  { apply Forall_forall. intros c Hc. subst kept.
    apply list_elem_of_In, List.filter_In in Hc. tauto. }
  split_and!.
  - apply Forall_rev, Forall_dropLeading, Forall_rev. by apply Forall_dropLeading.
  - intros c. rewrite last_rev_head.
    destruct (dropLeading (rev (dropLeading kept))) as [|a rest] eqn:Hd; [done|].
    intros [= <-]. by eapply dropLeading_head.
  - intros Hne Hnil. apply Hne. by rewrite Hnil.
Qed.

Lemma last_app_nonempty {A} (l1 l2 : list A) : l2 ≠ [] → last (l1 ++ l2) = last l2.
Proof.
  intros Hne. destruct l2 as [|a l2 _] using rev_ind; [done|].
  by rewrite app_assoc, !last_snoc.
Qed.

Lemma startsWith_length p s :
  startsWith p s = true → (String.length p ≤ String.length s)%nat.
Proof.
  unfold startsWith. revert s. induction p as [|a p IH]; intros s; [simpl; lia|].
  destruct s as [|b s]; [done|]. simpl.
  destruct (Ascii.ascii_dec a b); [|done]. intros H%IH. simpl. by apply le_n_S.
Qed.

Lemma length_list_ascii_of_string s :
  length (String.list_ascii_of_string s) = String.length s.
Proof. induction s as [|a s IH]; [done|]. simpl. by rewrite IH. Qed.

Lemma mcpPathShape_prefixed toLowerCase p :
  normalizePath toLowerCase p ≠ "" →
  mcpPathShape
    (if startsWith MCP_PATH_PREFIX (normalizePath toLowerCase p)
     then normalizePath toLowerCase p
     else MCP_PATH_PREFIX +:+ normalizePath toLowerCase p).
Proof.
  intros Hne.
  destruct (normalizePath_chars toLowerCase p) as (Hchars & Hlast & Hnil).
  specialize (Hnil Hne).
  set (np := normalizePath toLowerCase p) in *.
  destruct (startsWith MCP_PATH_PREFIX np) eqn:Hpre.
  - split_and!; [done | done | | done].
    pose proof (startsWith_length _ _ Hpre) as Hlen.
    rewrite <- (length_list_ascii_of_string np) in Hlen.
    change (String.length MCP_PATH_PREFIX) with 4%nat in Hlen.
    destruct (decide (length (String.list_ascii_of_string np) = 4%nat)) as [H4|]; [|lia].
    exfalso.
    (* a four-character path with the prefix is the prefix itself, which
       ends with [-] *)
    destruct (String.list_ascii_of_string np) as [|a [|b [|c [|d [|e l]]]]] eqn:Hl;
      try done.
    assert (np = String a (String b (String c (String d EmptyString)))) as Hnp.
    { rewrite <- (String.string_of_list_ascii_of_string np), Hl. done. }
    rewrite Hnp in Hpre. unfold startsWith, MCP_PATH_PREFIX in Hpre. simpl in Hpre.
    repeat match type of Hpre with
           | (if ?x then _ else _) = true => destruct x; [subst|done]
           end.
    by specialize (Hlast _ eq_refl).
  - unfold mcpPathShape. cbv zeta. rewrite list_ascii_of_string_app. split_and!.
    + apply Forall_app. split; [|done]. unfold MCP_PATH_PREFIX. simpl.
      repeat constructor.
    + apply startsWith_path_prefix.
    + rewrite length_app. unfold MCP_PATH_PREFIX. simpl.
      destruct (String.list_ascii_of_string np); [done | simpl; lia].
    + intros c. rewrite last_app_nonempty by done. apply Hlast.
Qed.

(** X13: create_form validates before it calls the forms API.  Either the
    normalised path is empty or the components argument is neither an array
    nor an object with a components entry, and then the tool throws with no
    API call and the remote project untouched; or it makes exactly one
    createForm call, whose path has only the characters a-z, 0-9, - and /,
    starts with the reserved prefix followed by at least one more character
    and does not end with - or /. *)
Theorem create_form_validates_before_api_call {S} (toLowerCase : string → string)
    (client : FormioClient S) (args : ToolArgs) (s : S) :
  let r := executeToolCall toLowerCase (recording client) create_form args (s, []) in
  (threw r.1 = true ∧ r.2 = (s, [])
   ∧ (normalizePath toLowerCase (arg_path args) = ""
      ∨ componentsOf (arg_components args) = None))
  ∨ (∃ formData p,
       r.2.2 = [CallCreateForm formData]
       ∧ r.1 = mapOutcome FormCreated (createForm client formData s).1
       ∧ path formData = Some p ∧ mcpPathShape p
       ∧ normalizePath toLowerCase (arg_path args) ≠ ""
       ∧ is_Some (componentsOf (arg_components args))).
Proof.
  intros r. subst r. unfold executeToolCall.
  set (np := normalizePath toLowerCase (arg_path args)).
  destruct (decide (np = "")) as [Hnp|Hnp].
  - left. unfold truthy_string. rewrite bool_decide_eq_false_2 by (by intros H).
    simpl. split_and!; [done | done | by left].
  - unfold truthy_string. rewrite bool_decide_eq_true_2 by done. simpl.
    destruct (componentsOf (arg_components args)) as [comps|] eqn:Hcomps.
    + right.
      set (formData := mkForm None _ _ _ _ _ _).
      exists formData, (if startsWith MCP_PATH_PREFIX np then np
                        else MCP_PATH_PREFIX +:+ np).
      unfold bind, ret, recording, traced. simpl.
      destruct (createForm client formData s) as [[f|e] s'] eqn:Hcreate; simpl;
        (split_and!; [done | done | done | by apply mcpPathShape_prefixed
                     | done | by eexists]).
    + left. simpl. split_and!; [done | done | by right].
Qed.

Example ex_create_form_rejected :
  let blank := mkArgs "" (mkForm None None None None None None None)
                 "Survey" "-/ __ /-" "survey" (Some (JArray [])) None None in
  let malformed := mkArgs "" (mkForm None None None None None None None)
                     "Survey" "survey" "survey" (Some (JString "[]")) None None in
  executeToolCall asciiToLowerCase (recording memoryClient) create_form blank (∅, [])
  = (Throws (ErrorInstance
       "Invalid path: after normalization, path is empty. Path must contain letters or numbers."),
     (∅, []))
  ∧ executeToolCall asciiToLowerCase (recording memoryClient) create_form malformed (∅, [])
    = (Throws (ErrorInstance
         "Invalid components parameter: must be an array of component objects"),
       (∅, [])).
Proof. split; vm_compute; reflexivity. Qed.

(** ** HTML escaping *)

Lemma string_of_list_ascii_app l1 l2 :
  String.string_of_list_ascii (l1 ++ l2)
  = String.string_of_list_ascii l1 +:+ String.string_of_list_ascii l2.
Proof. induction l1 as [|a l1 IH]; [done|]. simpl. by rewrite IH. Qed.

Lemma escapeHtml_app s1 s2 : escapeHtml (s1 +:+ s2) = escapeHtml s1 +:+ escapeHtml s2.
Proof.
  unfold escapeHtml, replaceAll.
  by rewrite list_ascii_of_string_app, !flat_map_app, string_of_list_ascii_app.
Qed.

Lemma escapeHtml_cons c s :
  escapeHtml (String c s) = escapeHtml (String c EmptyString) +:+ escapeHtml s.
Proof. apply (escapeHtml_app (String c EmptyString) s). Qed.

Lemma escapeHtml_single c :
  escapeHtml (String c EmptyString)
  = if Ascii.ascii_dec c "&" then "&amp;"
    else if Ascii.ascii_dec c "<" then "&lt;"
    else if Ascii.ascii_dec c ">" then "&gt;"
    else if Ascii.ascii_dec c dquoteChar then "&quot;"
    else if Ascii.ascii_dec c "'" then "&#039;"
    else String c EmptyString.
Proof. destruct c as [[] [] [] [] [] [] [] []]; vm_compute; reflexivity. Qed.

Lemma escapeHtml_single_safe c :
  Forall (λ x, isHtmlSpecial x = false)
    (String.list_ascii_of_string (escapeHtml (String c EmptyString))).
Proof.
  destruct c as [[] [] [] [] [] [] [] []]; vm_compute; repeat constructor.
Qed.

Lemma escapeHtml_no_special s :
  Forall (λ x, isHtmlSpecial x = false) (String.list_ascii_of_string (escapeHtml s)).
Proof.
  induction s as [|c s IH]; [constructor|].
  rewrite escapeHtml_cons, list_ascii_of_string_app. apply Forall_app.
  split; [apply escapeHtml_single_safe | done].
Qed.

(** The code of a character: an entity (which starts with an ampersand and
    is told apart by its second character) or the character itself, which
    then is no ampersand. *)
Lemma escapeHtml_single_cases c :
  (∃ b rest, escapeHtml (String c EmptyString) = String "&" (String b rest)
             ∧ ∀ c' rest', escapeHtml (String c' EmptyString)
                           = String "&" (String b rest') → c' = c)
  ∨ (escapeHtml (String c EmptyString) = String c EmptyString ∧ c ≠ "&"%char).
Proof.
  assert (∀ c' e, escapeHtml (String c' EmptyString) = e →
            (if Ascii.ascii_dec c' "&" then "&amp;"
             else if Ascii.ascii_dec c' "<" then "&lt;"
             else if Ascii.ascii_dec c' ">" then "&gt;"
             else if Ascii.ascii_dec c' dquoteChar then "&quot;"
             else if Ascii.ascii_dec c' "'" then "&#039;"
             else String c' EmptyString) = e) as Hcase
    by (intros c' e <-; symmetry; apply escapeHtml_single).
  rewrite escapeHtml_single.
  repeat match goal with
         | |- context [Ascii.ascii_dec c ?x] =>
           destruct (Ascii.ascii_dec c x) as [->|?]
         end;
    [left; eexists _, _; split; [done|]; intros c' rest' Hc'; apply Hcase in Hc';
     repeat match type of Hc' with
            | context [Ascii.ascii_dec c' ?x] =>
              destruct (Ascii.ascii_dec c' x) as [->|?]
            end; done ..
    | by right].
Qed.

Lemma append_inv_head s t1 t2 : s +:+ t1 = s +:+ t2 → t1 = t2.
Proof. induction s as [|a s IH]; [done|]. simpl. intros [= H]. by apply IH. Qed.

Lemma escapeHtml_inj s1 : ∀ s2, escapeHtml s1 = escapeHtml s2 → s1 = s2.
Proof.
  induction s1 as [|a s1 IH]; intros [|b s2].
  - done.
  - rewrite escapeHtml_cons.
    destruct (escapeHtml_single_cases b) as [(x & rest & -> & _)|[-> _]]; done.
  - rewrite escapeHtml_cons.
    destruct (escapeHtml_single_cases a) as [(x & rest & -> & _)|[-> _]]; done.
  - rewrite (escapeHtml_cons a), (escapeHtml_cons b).
    destruct (escapeHtml_single_cases a) as [(x & rest & Ha & Hxa)|[Ha Hna]],
             (escapeHtml_single_cases b) as [(y & rest' & Hb & Hyb)|[Hb Hnb]].
    + intros Heq. assert (x = y) as <-.
      { rewrite Ha, Hb in Heq. simpl in Heq. by injection Heq. }
      assert (b = a) as -> by (by eapply Hxa).
      apply append_inv_head in Heq. f_equal. by apply IH.
    + rewrite Ha, Hb. simpl. intros Heq. injection Heq as <- _. done.
    + rewrite Ha, Hb. simpl. intros Heq. injection Heq as -> _. done.
    + rewrite Ha, Hb. simpl. intros Heq. injection Heq as -> Heq.
      f_equal. by apply IH.
Qed.

(** X14: escapeHtml, the five replacements applied one after the other,
    acts as a substitution character by character: it maps the ampersand,
    the two angle brackets and the two quotes to their entities, keeps every
    other character, and distributes over concatenation.  Its result holds
    no angle bracket and no quote, and different texts have different
    results. *)
Theorem escapeHtml_entities_only :
  (∀ s1 s2, escapeHtml (s1 +:+ s2) = escapeHtml s1 +:+ escapeHtml s2)
  ∧ (∀ c, escapeHtml (String c EmptyString)
          = if Ascii.ascii_dec c "&" then "&amp;"
            else if Ascii.ascii_dec c "<" then "&lt;"
            else if Ascii.ascii_dec c ">" then "&gt;"
            else if Ascii.ascii_dec c dquoteChar then "&quot;"
            else if Ascii.ascii_dec c "'" then "&#039;"
            else String c EmptyString)
  ∧ (∀ s c, c ∈ String.list_ascii_of_string (escapeHtml s) →
            c ≠ "<"%char ∧ c ≠ ">"%char ∧ c ≠ dquoteChar ∧ c ≠ "'"%char)
  ∧ (∀ s1 s2, escapeHtml s1 = escapeHtml s2 → s1 = s2).
Proof.
  split_and!.
  - apply escapeHtml_app.
  - apply escapeHtml_single.
  - intros s c Hc.
    pose proof (escapeHtml_no_special s) as Hsafe.
    rewrite Forall_forall in Hsafe. apply Hsafe in Hc.
    unfold isHtmlSpecial in Hc. apply bool_decide_eq_false_1 in Hc.
    split_and!; intros ->; apply Hc; set_solver.
  - intros s1 s2. apply escapeHtml_inj.
Qed.

Example ex_escapeHtml :
  escapeHtml "<b title='x'>&lt;</b>"
  = "&lt;b title=&#039;x&#039;&gt;&amp;lt;&lt;/b&gt;".
Proof. vm_compute. reflexivity. Qed.

(** ** The authentication middleware *)

Lemma wholeToken_Some l t :
  wholeToken l = Some t ↔ t = l ∧ l ≠ [] ∧ Forall (λ c, isLineTerminator c = false) l.
Proof.
  unfold wholeToken. destruct l as [|a l]; [split; [done | by intros (_ & ? & _)]|].
  destruct (forallb (λ c, negb (isLineTerminator c)) (a :: l)) eqn:Hall.
  - rewrite forallb_forall in Hall. split; [|by intros (-> & _)].
    intros [= <-]. split_and!; [done | done |].
    apply Forall_forall. intros c Hc%list_elem_of_In%Hall.
    by apply negb_true_iff.
  - split; [done|]. intros (-> & _ & Hno). exfalso.
    assert (forallb (λ c, negb (isLineTerminator c)) (a :: l) = true) as Habs.
    { apply forallb_forall. intros c Hc%list_elem_of_In.
      rewrite Forall_forall in Hno. by rewrite (Hno c Hc). }
    congruence.
Qed.

Lemma spacesToken_sound l : ∀ t,
  spacesToken l = Some t →
  ∃ sp, l = sp ++ t ∧ sp ≠ [] ∧ Forall (λ c, isRegexSpace c = true) sp
        ∧ t ≠ [] ∧ Forall (λ c, isLineTerminator c = false) t
        ∧ ∀ c rest, t = c :: rest → isRegexSpace c = true → rest = [].
Proof.
  induction l as [|c l IH]; intros t; [done|]. simpl.
  destruct (isRegexSpace c) eqn:Hc; [|done].
  destruct (spacesToken l) as [t'|] eqn:Hrec.
  - intros [= <-]. destruct (IH t' eq_refl) as (sp & -> & Hne & Hsp & Ht).
    exists (c :: sp). split_and!; [done | done | by constructor | tauto ..].
  - intros (-> & Hne & Hno)%wholeToken_Some.
    exists [c]. split_and!; [done | done | by repeat constructor | done | done |].
    (* the run ended before a white-space character: nothing follows it *)
    intros a rest -> Ha. simpl in Hrec. rewrite Ha in Hrec.
    destruct (spacesToken rest); [done|].
    destruct rest as [|b rest]; [done|]. exfalso.
    apply Forall_cons in Hno as [_ Hno].
    assert (wholeToken (b :: rest) = Some (b :: rest)) as Hw
      by (by apply wholeToken_Some).
    congruence.
Qed.

Lemma spacesToken_complete sp : ∀ t,
  sp ≠ [] → Forall (λ c, isRegexSpace c = true) sp →
  t ≠ [] → Forall (λ c, isLineTerminator c = false) t →
  (∀ c rest, t = c :: rest → isRegexSpace c = true → rest = []) →
  spacesToken (sp ++ t) = Some t.
Proof.
  induction sp as [|c sp IH]; intros t Hne Hsp Ht Hno Hhead; [done|].
  apply Forall_cons in Hsp as [Hc Hsp]. simpl. rewrite Hc.
  destruct sp as [|c' sp].
  - simpl. destruct t as [|a t]; [done|].
    assert (spacesToken (a :: t) = None) as ->.
    { simpl. destruct (isRegexSpace a) eqn:Ha; [|done].
      by rewrite (Hhead a t eq_refl Ha). }
    apply wholeToken_Some. done.
  - by rewrite IH.
Qed.

Lemma string_of_list_ascii_inj l1 l2 :
  String.string_of_list_ascii l1 = String.string_of_list_ascii l2 → l1 = l2.
Proof.
  intros H. by rewrite <- (String.list_ascii_of_string_of_list_ascii l1),
    <- (String.list_ascii_of_string_of_list_ascii l2), H.
Qed.

Lemma asciiToLowerCase_length s :
  String.length (asciiToLowerCase s) = String.length s.
Proof.
  unfold asciiToLowerCase.
  by rewrite <- !length_list_ascii_of_string,
    String.list_ascii_of_string_of_list_ascii, length_fmap.
Qed.

Lemma matchBearer_sound authHeader token :
  matchBearer authHeader = Some token →
  ∃ scheme spaces,
    authHeader = scheme +:+ spaces +:+ token
    ∧ asciiToLowerCase scheme = "bearer"
    ∧ spaces ≠ ""
    ∧ Forall (λ c, isRegexSpace c = true) (String.list_ascii_of_string spaces)
    ∧ usableToken token.
Proof.
  unfold matchBearer. cbv zeta.
  set (l := String.list_ascii_of_string authHeader).
  case_bool_decide as Hscheme; [|done].
  destruct (spacesToken (drop 6 l)) as [t|] eqn:Hst; [|done].
  intros [= <-].
  destruct (spacesToken_sound _ _ Hst) as (sp & Hl & Hne & Hsp & Htne & Hno & Hhead).
  exists (String.string_of_list_ascii (take 6 l)), (String.string_of_list_ascii sp).
  unfold usableToken. rewrite !String.list_ascii_of_string_of_list_ascii.
  split_and!; [| done | | done | | done |].
  - rewrite <- !string_of_list_ascii_app, <- Hl, take_drop. subst l.
    by rewrite String.string_of_list_ascii_of_string.
  - intros H. apply Hne. by apply string_of_list_ascii_inj.
  - intros H. apply Htne. by apply string_of_list_ascii_inj.
  - intros c rest Ht Hc.
    assert (t = c :: String.list_ascii_of_string rest) as Ht'.
    { by rewrite <- (String.list_ascii_of_string_of_list_ascii t), Ht. }
    pose proof (Hhead _ _ Ht' Hc) as Hrest.
    destruct rest; [done | discriminate Hrest].
Qed.

Lemma matchBearer_complete scheme spaces token :
  asciiToLowerCase scheme = "bearer" →
  spaces ≠ "" →
  Forall (λ c, isRegexSpace c = true) (String.list_ascii_of_string spaces) →
  usableToken token →
  matchBearer (scheme +:+ spaces +:+ token) = Some token.
Proof.
  intros Hscheme Hsp Hspaces (Htok & Hno & Hhead).
  assert (length (String.list_ascii_of_string scheme) = 6%nat) as Hlen.
  { rewrite length_list_ascii_of_string, <- asciiToLowerCase_length, Hscheme. done. }
  unfold matchBearer. cbv zeta.
  rewrite !list_ascii_of_string_app.
  rewrite take_app_length' by done. rewrite drop_app_length' by done.
  rewrite String.string_of_list_ascii_of_string, Hscheme.
  rewrite bool_decide_eq_true_2 by done.
  rewrite spacesToken_complete; try done.
  - simpl. by rewrite String.string_of_list_ascii_of_string.
  - intros H. apply Hsp.
    by rewrite <- (String.string_of_list_ascii_of_string spaces), H.
  - intros H. apply Htok.
    by rewrite <- (String.string_of_list_ascii_of_string token), H.
  - intros c rest Ht Hc.
    assert (token = String c (String.string_of_list_ascii rest)) as Ht'.
    { by rewrite <- (String.string_of_list_ascii_of_string token), Ht. }
    apply (Hhead _ _ Ht') in Hc. by apply (string_of_list_ascii_inj rest []).
Qed.

(** X15: with authentication required, the middleware lets a request
    through exactly when its Authorization header is the word Bearer in any
    letter case, then one or more white-space characters, then a configured
    API key that the pattern can yield: not empty, without line terminator,
    and not starting with white space unless it is a single character.  A
    configured key that starts with white space and is longer therefore
    admits no request.  Without an Authorization header, or with an empty
    one, the reply is 401. *)
Theorem auth_admits_configured_keys_only (config : HttpConfig) :
  requireAuth config = true →
  (∀ authorization,
     createAuthMiddleware config authorization = Next →
     ∃ scheme spaces token,
       authorization = Some (scheme +:+ spaces +:+ token)
       ∧ asciiToLowerCase scheme = "bearer"
       ∧ spaces ≠ ""
       ∧ Forall (λ c, isRegexSpace c = true) (String.list_ascii_of_string spaces)
       ∧ token ∈ apiKeys config
       ∧ usableToken token)
  ∧ (∀ scheme spaces token,
       asciiToLowerCase scheme = "bearer" →
       spaces ≠ "" →
       Forall (λ c, isRegexSpace c = true) (String.list_ascii_of_string spaces) →
       token ∈ apiKeys config →
       usableToken token →
       createAuthMiddleware config (Some (scheme +:+ spaces +:+ token)) = Next)
  ∧ (∀ authorization,
       authorization = None ∨ authorization = Some "" →
       ∃ body, createAuthMiddleware config authorization = Denied (mkReply 401 body)).
Proof.
  intros Hreq. unfold createAuthMiddleware. rewrite Hreq. simpl. split_and!.
  - intros [h|]; [|done].
    destruct (truthy_string h); [|done].
    destruct (matchBearer h) as [token|] eqn:Hm; [|done].
    case_bool_decide as Hkey; [|done]. intros _.
    destruct (matchBearer_sound h token Hm) as (scheme & spaces & -> & ? & ? & ? & ?).
    by exists scheme, spaces, token.
  - intros scheme spaces token Hscheme Hsp Hspaces Hkey Husable.
    assert (truthy_string (scheme +:+ spaces +:+ token) = true) as ->.
    { apply bool_decide_eq_true_2. intros Hnil.
      assert (String.length (scheme +:+ spaces +:+ token) = 0%nat) as Hlen
        by (by rewrite Hnil).
      rewrite <- length_list_ascii_of_string, list_ascii_of_string_app,
        length_app, length_list_ascii_of_string, <- asciiToLowerCase_length,
        Hscheme in Hlen. simpl in Hlen. lia. }
    rewrite matchBearer_complete by done.
    by rewrite bool_decide_eq_true_2.
  - intros authorization [->| ->]; by eexists.
Qed.

Lemma auth_admits_configured_keys_only_witness :
  createAuthMiddleware (mkHttpConfig true ["k-1"; "secret key"])
    (Some ("bEaReR" +:+ "  " +:+ "secret key")) = Next.
Proof.
  apply (proj1 (proj2 (auth_admits_configured_keys_only
                         (mkHttpConfig true ["k-1"; "secret key"]) eq_refl))
           "bEaReR" "  " "secret key").
  - vm_compute. reflexivity.
  - discriminate.
  - vm_compute. repeat constructor.
  - apply list_elem_of_further, list_elem_of_here.
  - split_and!; [discriminate | vm_compute; repeat constructor |].
    intros c rest [= <- <-]. vm_compute. discriminate.
Defined.

Example ex_auth_replies :
  let config := mkHttpConfig true ["k-1"] in
  createAuthMiddleware config (Some "Bearer k-1") = Next
  ∧ (∃ b, createAuthMiddleware config (Some "Bearer k-2") = Denied (mkReply 403 b))
  ∧ (∃ b, createAuthMiddleware config (Some "Bearerk-1") = Denied (mkReply 401 b))
  ∧ (∃ b, createAuthMiddleware config (Some "Basic k-1") = Denied (mkReply 401 b))
  ∧ (∃ b, createAuthMiddleware (mkHttpConfig true ["k-1"; " k-2"])
            (Some "Bearer  k-2") = Denied (mkReply 403 b))
  ∧ createAuthMiddleware (mkHttpConfig false []) None = Next.
Proof. split_and!; try (eexists; vm_compute; reflexivity); vm_compute; reflexivity. Qed.

(** ** The direct JSON-RPC endpoint *)



(** ** The statistics of the router *)

Lemma length_watch_pairs (l : list (string * list string)) :
  length (l ≫= (λ p, (λ c, (c, p.1)) <$> p.2)) = sum_list_with (λ p, length p.2) l.
Proof.
  induction l as [|x l IH]; [done|].
  rewrite bind_cons, length_app, length_fmap, IH. done.
Qed.

Lemma sum_list_snd_length {K A} (l : list (K * list A)) :
  sum_list (prod_map Datatypes.id length <$> l).*2 = sum_list_with (λ p, length p.2) l.
Proof. induction l as [|[k x] l IH]; [done|]. simpl in *. by f_equal. Qed.

(** The pairs (connection, form) read off the forward index are those of
    the reverse index. *)
Lemma watch_pairs_Permutation n :
  watchIndexInv n →
  map_to_list (formWatchers n) ≫= (λ p, (λ c, (c, p.1)) <$> p.2)
  ≡ₚ map_to_list (connectionForms n).
Proof.
  intros (_ & Hiff & _ & Hnd).
  apply NoDup_Permutation.
  - apply NoDup_bind.
    + intros [f1 ws1] [f2 ws2] [c f] H1 H2.
      intros (c1 & [= -> ->] & _)%list_elem_of_fmap (c2 & [= _ <-] & _)%list_elem_of_fmap.
      apply elem_of_map_to_list in H1, H2. simpl in *. congruence.
    + intros [f ws] Hf%elem_of_map_to_list. simpl.
      apply NoDup_fmap_2; [by intros c1 c2 [= ->]|].
      specialize (Hnd f). unfold getConnectionsByForm in Hnd. by rewrite Hf in Hnd.
    + apply NoDup_map_to_list.
  - apply NoDup_map_to_list.
  - intros [c f]. rewrite list_elem_of_bind, elem_of_map_to_list, Hiff.
    unfold getConnectionsByForm. split.
    + intros ([f' ws] & (c' & [= -> ->] & Hc)%list_elem_of_fmap & Hf%elem_of_map_to_list).
      simpl in *. by rewrite Hf.
    + intros Hc. destruct (formWatchers n !! f) as [ws|] eqn:Hf;
        [|by apply not_elem_of_nil in Hc].
      exists (f, ws). split; [|by apply elem_of_map_to_list].
      apply list_elem_of_fmap. by exists c.
Qed.

(** X17: the numbers getStats reports agree with each other when the
    indices are consistent: totalConnections is the sum of the per-form
    counts, totalForms is the number of per-form entries, and every per-form
    count is positive and is the number of connections
    getConnectionsByForm returns for that form. *)
Theorem getStats_totals_agree (n : FormUpdateNotifier) :
  watchIndexInv n →
  let stats := getStats n in
  totalConnections stats = sum_list (map_to_list (connectionsPerForm stats)).*2
  ∧ totalForms stats = size (connectionsPerForm stats)
  ∧ (∀ f k, connectionsPerForm stats !! f = Some k →
            (0 < k)%nat ∧ k = length (getConnectionsByForm f n))
  ∧ (∀ f, connectionsPerForm stats !! f = None → getConnectionsByForm f n = []).
Proof.
  intros Hinv stats. subst stats. unfold getStats. simpl. split_and!.
  - rewrite map_to_list_fmap, sum_list_snd_length, <- length_watch_pairs.
    rewrite <- length_map_to_list. symmetry.
    by apply Permutation_length, watch_pairs_Permutation.
  - by rewrite map_size_fmap.
  - intros f k. rewrite lookup_fmap. unfold getConnectionsByForm.
    destruct (formWatchers n !! f) as [ws|] eqn:Hf; [|done].
    simpl. intros [= <-]. split; [|done].
    destruct Hinv as (_ & _ & Hnil & _). destruct ws; [by apply Hnil in Hf|].
    simpl. lia.
  - intros f. rewrite lookup_fmap. unfold getConnectionsByForm.
    by destruct (formWatchers n !! f).
Qed.

Lemma getStats_totals_agree_witness :
  let n := routerCalls [Register "c1" "f1" 0; Register "c2" "f1" 1;
                        Register "c3" "f2" 2; Unregister "c1"]
             (newNotifier 500 300000) in
  totalConnections (getStats n)
  = sum_list (map_to_list (connectionsPerForm (getStats n))).*2.
Proof.
  intros n.
  assert (watchIndexInv n) as Hinv.
  { apply watchIndexInv_calls; [|apply watchIndexInv_new].
    repeat constructor; discriminate. }
  exact (proj1 (getStats_totals_agree n Hinv)).
Defined.

(** ** The extrema reported by getMetrics *)

Lemma oldest_fold l : ∀ a,
  ∃ o, foldl (λ acc t, match acc with
                       | Some o => if decide (t < o) then Some t else Some o
                       | None => Some t
                       end) (Some a) l = Some o
       ∧ o ∈ a :: l ∧ ∀ t, t ∈ a :: l → o ≤ t.
Proof.
  induction l as [|b l IH]; intros a.
  - exists a. split_and!; [done | apply list_elem_of_here |].
    intros t [->|Ht%not_elem_of_nil]%elem_of_cons; [lia | done].
  - cbn [foldl]. destruct (decide (b < a)) as [Hlt|Hge].
    + destruct (IH b) as (o & -> & Ho & Hmin). exists o. split_and!; [done | |].
      * by apply list_elem_of_further.
      * intros t [->|Ht]%elem_of_cons; [|by apply Hmin].
        specialize (Hmin b (list_elem_of_here _ _)). lia.
    + destruct (IH a) as (o & -> & Ho & Hmin). exists o. split_and!; [done | |].
      * apply elem_of_cons in Ho as [->|Ho]; [apply list_elem_of_here|].
        by apply list_elem_of_further, list_elem_of_further.
      * intros t [->|[->|Ht]%elem_of_cons]%elem_of_cons.
        -- apply Hmin, list_elem_of_here.
        -- specialize (Hmin a (list_elem_of_here _ _)). lia.
        -- by apply Hmin, list_elem_of_further.
Qed.

Lemma newest_fold l : ∀ a,
  ∃ o, foldl (λ acc t, match acc with
                       | Some o => if decide (o < t) then Some t else Some o
                       | None => Some t
                       end) (Some a) l = Some o
       ∧ o ∈ a :: l ∧ ∀ t, t ∈ a :: l → t ≤ o.
Proof.
  induction l as [|b l IH]; intros a.
  - exists a. split_and!; [done | apply list_elem_of_here |].
    intros t [->|Ht%not_elem_of_nil]%elem_of_cons; [lia | done].
  - cbn [foldl]. destruct (decide (a < b)) as [Hlt|Hge].
    + destruct (IH b) as (o & -> & Ho & Hmax). exists o. split_and!; [done | |].
      * by apply list_elem_of_further.
      * intros t [->|Ht]%elem_of_cons; [|by apply Hmax].
        specialize (Hmax b (list_elem_of_here _ _)). lia.
    + destruct (IH a) as (o & -> & Ho & Hmax). exists o. split_and!; [done | |].
      * apply elem_of_cons in Ho as [->|Ho]; [apply list_elem_of_here|].
        by apply list_elem_of_further, list_elem_of_further.
      * intros t [->|[->|Ht]%elem_of_cons]%elem_of_cons.
        -- apply Hmax, list_elem_of_here.
        -- specialize (Hmax a (list_elem_of_here _ _)). lia.
        -- by apply Hmax, list_elem_of_further.
Qed.

Lemma elem_of_activity_stamps t n :
  t ∈ (map_to_list (connectionActivity n)).*2
  ↔ ∃ c, connectionActivity n !! c = Some t.
Proof.
  rewrite list_elem_of_fmap. split.
  - intros ([c t'] & -> & H%elem_of_map_to_list). by exists c.
  - intros [c Hc]. exists (c, t). split; [done | by apply elem_of_map_to_list].
Qed.

(** X18: the oldest and newest stamps getMetrics reports are the least and
    the greatest last-activity stamp over the tracked connections, each the
    stamp of some tracked connection; both are null exactly when no
    connection is tracked. *)
Theorem metrics_extrema (n : FormUpdateNotifier) :
  (oldestConnection n = None ↔ connectionActivity n = ∅)
  ∧ (newestConnection n = None ↔ connectionActivity n = ∅)
  ∧ (∀ o, oldestConnection n = Some o →
          (∃ c, connectionActivity n !! c = Some o)
          ∧ ∀ c t, connectionActivity n !! c = Some t → o ≤ t)
  ∧ (∀ o, newestConnection n = Some o →
          (∃ c, connectionActivity n !! c = Some o)
          ∧ ∀ c t, connectionActivity n !! c = Some t → t ≤ o).
Proof.
  unfold oldestConnection, newestConnection.
  pose proof (elem_of_activity_stamps) as Hstamps.
  destruct (map_to_list (connectionActivity n)) as [|[c0 t0] l] eqn:Hl.
  - apply map_to_list_empty_iff in Hl. rewrite Hl. simpl. done.
  - assert (connectionActivity n ≠ ∅) as Hne.
    { intros Hempty. apply map_to_list_empty_iff in Hempty. congruence. }
    assert (∀ t, t ∈ t0 :: l.*2 ↔ ∃ c, connectionActivity n !! c = Some t) as Hin.
    { intros t. rewrite <- Hstamps, Hl. done. }
    rewrite fmap_cons. cbn [foldl snd].
    destruct (oldest_fold l.*2 t0) as (o & -> & Ho & Hmin).
    destruct (newest_fold l.*2 t0) as (o' & -> & Ho' & Hmax).
    split_and!; [done | done | |].
    + intros ? [= <-]. split; [by apply Hin|].
      intros c t Ht. apply Hmin, Hin. by exists c.
    + intros ? [= <-]. split; [by apply Hin|].
      intros c t Ht. apply Hmax, Hin. by exists c.
Qed.

(** ** The ownership gate, end to end *)

(** X19: over the direct endpoint, an authenticated tools/call request for
    update_form or delete_form on a form that is not owned by this system is
    answered with status 200 and a JSON-RPC error -32603 whose message is
    the refusal of validateMCPOwnership, and the only call the forms API
    received is the getForm that fetched the form. *)
Theorem foreign_form_mutation_refused_over_http {S} (toLowerCase : string → string)
    (client : FormioClient S)
    (toolCallOf : JSONRPCMessage → ToolName * option ToolArgs)
    (resultJson : ToolResult → Json)
    (config : HttpConfig) (transport : HttpTransport (S * list ApiCall))
    (authorization : option string) (envelope : RpcEnvelope) (i : RequestId)
    (name : ToolName) (args : ToolArgs) (form : FormioForm) (s s1 : S) :
  messageHandlers transport !! "tools/call"
  = Some (toolsCallHandler toLowerCase (recording client) toolCallOf resultJson) →
  createAuthMiddleware config authorization = Next →
  isJsonRpc2 (Some envelope) = true →
  msg_id (env_message envelope) = Some i →
  msg_method (env_message envelope) = Some "tools/call" →
  toolCallOf (env_message envelope) = (name, Some args) →
  name = update_form ∨ name = delete_form →
  getForm client (arg_formId args) s = (Returns form, s1) →
  ¬ ownedByMCP form →
  ∃ operation text,
    validateMCPOwnership form operation = Throws (ErrorInstance text)
    ∧ postDirect config transport authorization (Some envelope) (s, [])
      = (Returns (mkReply 200
                    (RpcReply (mkRpcResponse (Some (idOrNull (Some i)))
                                 (ErrorBody (-32603) text)))),
         (s1, [CallGetForm (arg_formId args)])).
Proof.
  intros Hhandler Hauth Hv Hid Hmethod Hcall Hname Hget Hnot.
  assert (∀ operation, ∃ text,
            validateMCPOwnership form operation = Throws (ErrorInstance text))
    as Hrefuse.
  { intros operation. unfold validateMCPOwnership.
    assert (truthy_bool (isMCPForm form) = false) as ->.
    { destruct (truthy_bool (isMCPForm form)) eqn:E; [|done].
      by apply isMCPForm_owned in E. }
    simpl. by eexists. }
  assert (∀ operation text,
            name = update_form ∧ operation = "update"
            ∨ name = delete_form ∧ operation = "delete" →
            validateMCPOwnership form operation = Throws (ErrorInstance text) →
            postDirect config transport authorization (Some envelope) (s, [])
            = (Returns (mkReply 200
                          (RpcReply (mkRpcResponse (Some (idOrNull (Some i)))
                                       (ErrorBody (-32603) text)))),
               (s1, [CallGetForm (arg_formId args)]))) as Hpost.
  { intros operation text Hop Hval.
    unfold postDirect. rewrite Hauth, Hv. simpl. rewrite Hid.
    unfold tryCatch, bind, ret, handleRequestSync, tryCatch. rewrite Hmethod.
    destruct (messageHandlers transport !! "tools/call") as [handler|];
      [|discriminate Hhandler].
    injection Hhandler as ->.
    unfold toolsCallHandler. rewrite Hcall.
    destruct Hop as [[-> ->]|[-> ->]];
      unfold executeToolCall, bind, lift, ret, recording, traced; simpl;
      rewrite Hget; simpl; rewrite Hval; simpl; by rewrite Hid. }
  destruct Hname as [->| ->].
  - destruct (Hrefuse "update") as [text Htext].
    exists "update", text. split; [done|]. by apply (Hpost "update"); [left|].
  - destruct (Hrefuse "delete") as [text Htext].
    exists "delete", text. split; [done|]. by apply (Hpost "delete"); [right|].
Qed.

Lemma foreign_form_mutation_refused_over_http_witness :
  let store : gmap string FormioForm :=
    {[ "xyz" := mkForm (Some "xyz") (Some "Contact") (Some "contact")
                  (Some "contact") None None None ]} in
  let args := mkArgs "xyz" (mkForm None (Some "Hijacked") None None None None None)
                "" "" "" None None None in
  let toolCallOf := λ _ : JSONRPCMessage, (delete_form, Some args) in
  let resultJson := λ _ : ToolResult, JNull in
  let transport :=
    registerHandler "tools/call"
      (toolsCallHandler asciiToLowerCase (recording memoryClient) toolCallOf resultJson)
      (mkTransport ∅) in
  let envelope :=
    mkEnvelope (Some (JString "2.0"))
      (mkMessage (Some (IdNumber 7)) (Some "tools/call") None) in
  ∃ operation text,
    validateMCPOwnership
      (mkForm (Some "xyz") (Some "Contact") (Some "contact") (Some "contact")
         None None None) operation
    = Throws (ErrorInstance text)
    ∧ postDirect (mkHttpConfig true ["k-1"]) transport (Some "Bearer k-1")
        (Some envelope) (store, [])
      = (Returns (mkReply 200
                    (RpcReply (mkRpcResponse (Some (idOrNull (Some (IdNumber 7))))
                                 (ErrorBody (-32603) text)))),
         (store, [CallGetForm (arg_formId args)])).
Proof.
  intros store args toolCallOf resultJson transport envelope.
  apply (foreign_form_mutation_refused_over_http asciiToLowerCase memoryClient
           toolCallOf resultJson (mkHttpConfig true ["k-1"]) transport
           (Some "Bearer k-1") envelope (IdNumber 7) delete_form args
           (mkForm (Some "xyz") (Some "Contact") (Some "contact") (Some "contact")
              None None None) store store).
  - subst transport. unfold registerHandler. simpl. apply lookup_insert_eq.
  - vm_compute. reflexivity.
  - vm_compute. reflexivity.
  - reflexivity.
  - reflexivity.
  - reflexivity.
  - by right.
  - vm_compute. reflexivity.
  - intros [(t & [= <-] & Ht)|(p & [= <-] & Hp)]; vm_compute in *; discriminate.
Defined.

(** ** Delivered frames are no activity *)









Example ex_watcher_evicted_after_frame :
  let w := acceptPreview "c1" "f1" (mkResponse WriteOk []) (newWorld 500 300000) in
  let w' := foldl routerEvent w
              [TimePasses 299000; OnFormUpdated "f1" None; TimePasses 300001] in
  streamOf "c1" w' = [ConnectionFrame "c1"; FormUpdateFrame "f1" 299500 updated]
  ∧ getFormByConnection "c1" (notifier (cleanupIdleConnections w').1) = None.
Proof. split; vm_compute; reflexivity. Qed.
